(** * A shallow embedding of [setup.py]: the state-tracked config syncer

    The development follows the script top to bottom: text and path helpers
    that stand for the [str] and [pathlib] operations the script calls, a
    filesystem, the exceptions the script can meet, a state-and-exception
    monad for the methods of [ConfigSyncer], then the methods themselves
    under the names they have in the script.  The theorems come after all
    definitions. *)

From Stdlib Require Import Ascii ZArith Lia.
From stdpp Require Import base option list gmap strings pretty.

(** ** Text *)

Module Text.

Definition LF : ascii := "010"%char.
Definition CR : ascii := "013"%char.
Definition DQUOTE : ascii := "034"%char.

(** The one-character strings [chr(10)] and [chr(34)]. *)
Definition nl : string := String LF EmptyString.
Definition dq : string := String DQUOTE EmptyString.

(** Text-mode reading ([open(..., "r")] with [newline=None], which is what
    [Path.read_text] and [Path.open("r")] use): universal newlines, every
    CR LF pair and every lone CR arrives as LF. *)
Fixpoint universal_newlines (s : string) : string :=
  match s with
  | EmptyString => EmptyString
  | String c s' =>
      if Ascii.eqb c CR then
        match s' with
        | String d s'' =>
            if Ascii.eqb d LF then String LF (universal_newlines s'')
            else String LF (universal_newlines s')
        | EmptyString => String LF EmptyString
        end
      else String c (universal_newlines s')
  end.

(** [str.splitlines(keepends=True)] restricted to LF, which is how
    [readlines()] cuts a text that went through [universal_newlines]. *)
Fixpoint split_lines (s : string) : list string :=
  match s with
  | EmptyString => []
  | String c s' =>
      if Ascii.eqb c LF then nl :: split_lines s'
      else match split_lines s' with
           | [] => [String c EmptyString]
           | l :: ls => String c l :: ls
           end
  end.

(** ["".join(lines)] *)
Definition join (ls : list string) : string := foldr String.append EmptyString ls.

(** ASCII white space as [str.strip()] sees it. *)
Definition is_space (c : ascii) : bool :=
  let n := nat_of_ascii c in
  ((9 <=? n)%nat && (n <=? 13)%nat) || ((28 <=? n)%nat && (n <=? 32)%nat).

Fixpoint lstrip (s : string) : string :=
  match s with
  | String c s' => if is_space c then lstrip s' else s
  | EmptyString => EmptyString
  end.

Fixpoint rstrip (s : string) : string :=
  match s with
  | EmptyString => EmptyString
  | String c s' =>
      match rstrip s' with
      | EmptyString => if is_space c then EmptyString else String c EmptyString
      | r => String c r
      end
  end.

Definition strip (s : string) : string := rstrip (lstrip s).

Definition lower_char (c : ascii) : ascii :=
  let n := nat_of_ascii c in
  if (65 <=? n)%nat && (n <=? 90)%nat then ascii_of_nat (n + 32) else c.

Fixpoint lower (s : string) : string :=
  match s with
  | EmptyString => EmptyString
  | String c s' => String (lower_char c) (lower s')
  end.

(** [pattern.endswith("/")] and [pattern[:-1]] *)
Fixpoint endswith_slash (s : string) : bool :=
  match s with
  | EmptyString => false
  | String c EmptyString => Ascii.eqb c "/"%char
  | String _ s' => endswith_slash s'
  end.

Fixpoint drop_last (s : string) : string :=
  match s with
  | EmptyString => EmptyString
  | String _ EmptyString => EmptyString
  | String c s' => String c (drop_last s')
  end.

(** [fnmatch.fnmatchcase(name, pat)] for patterns made of literal
    characters, [*] and [?].  Bracket expressions are left out: no entry of
    [EXCLUDE_PATTERNS] has one. *)
Fixpoint fnmatchcase_rev (pat : string) : string → bool :=
  match pat with
  | EmptyString => λ s, if s is EmptyString then true else false
  | String p pat' =>
      if Ascii.eqb p "*"%char then
        fix star (s : string) : bool :=
          fnmatchcase_rev pat' s ||
          match s with
          | EmptyString => false
          | String _ s' => star s'
          end
      else if Ascii.eqb p "?"%char then
        λ s, match s with
             | String _ s' => fnmatchcase_rev pat' s'
             | EmptyString => false
             end
      else
        λ s, match s with
             | String c s' => Ascii.eqb p c && fnmatchcase_rev pat' s'
             | EmptyString => false
             end
  end.

Definition fnmatchcase (name pat : string) : bool := fnmatchcase_rev pat name.

(** [s.split("/")] *)
Fixpoint split_slash (s : string) : list string :=
  match s with
  | EmptyString => [EmptyString]
  | String c s' =>
      if Ascii.eqb c "/"%char then EmptyString :: split_slash s'
      else match split_slash s' with
           | [] => [String c EmptyString]
           | l :: ls => String c l :: ls
           end
  end.

(** The components [pathlib] reads off a pattern: the pieces between
    slashes, empty pieces and [.] dropped. *)
Definition components (s : string) : list string :=
  filter (λ c, c ≠ EmptyString ∧ c ≠ ".") (split_slash s).

Definition startswith_slash (s : string) : bool :=
  match s with
  | String c _ => Ascii.eqb c "/"%char
  | EmptyString => false
  end.

End Text.

(** ** Exceptions and results *)

(** The exception classes the script can meet; all of them are subclasses of
    [Exception], so the [except Exception] of [sync] catches each one. *)
Inductive exn : Type :=
  | FileNotFoundError
  | FileExistsError
  | IsADirectoryError
  | NotADirectoryError
  | OSError
  | UnicodeDecodeError
  | JSONDecodeError
  | EOFError
  | IndexError
  | KeyError
  | ValueError.

(** The I/O failures among them (the [OSError] family). *)
Definition is_io_error (e : exn) : bool :=
  match e with
  | FileNotFoundError | FileExistsError | IsADirectoryError
  | NotADirectoryError | OSError => true
  | _ => false
  end.

Inductive result (A : Type) : Type :=
  | Ok (a : A)
  | Raise (e : exn).
Arguments Ok {A} a.
Arguments Raise {A} e.

Definition result_bind {A B} (r : result A) (k : A → result B) : result B :=
  match r with
  | Ok a => k a
  | Raise e => Raise e
  end.

Definition is_ok {A} (r : result A) : bool :=
  match r with Ok _ => true | Raise _ => false end.

(** ** Paths *)

(** A [Path] is the list of components of a normalised absolute
    [PurePosixPath] ([/home/u/configs] is [["home"; "u"; "configs"]], the root
    is [[]]); a relative path is the list of its components as well ([.] is
    [[]]). *)
Abbreviation Path := (list string).

Module Paths.
Import Text.

Definition TMP_SUFFIX : string := ".tmp_sync".

(** [p.parent]; the root is its own parent. *)
Definition parent (p : Path) : Path := removelast p.

(** [base / rel] *)
Definition joinpath (base rel : Path) : Path := base ++ rel.

(** [p.relative_to(base)]: [ValueError] unless [base] is a prefix of [p]. *)
Fixpoint relative_to (p base : Path) : result Path :=
  match base, p with
  | [], _ => Ok p
  | b :: base', c :: p' => if decide (b = c) then relative_to p' base' else Raise ValueError
  | _ :: _, [] => Raise ValueError
  end.

(** [p.with_suffix(p.suffix + ".tmp_sync")].  [with_suffix] replaces the
    old suffix of the last component by the new one; the new one starts
    with the old one, so the last component only grows by [.tmp_sync].
    A path with no last component has an empty name: [ValueError]. *)
Fixpoint with_tmp_suffix (p : Path) : result Path :=
  match p with
  | [] => Raise ValueError
  | [n] => Ok [n +:+ TMP_SUFFIX]
  | c :: p' => result_bind (with_tmp_suffix p') (λ q, Ok (c :: q))
  end.

(** [str(p)] for an absolute path. *)
Definition path_str (p : Path) : string :=
  match p with
  | [] => "/"
  | _ => foldr (λ c s, "/" +:+ c +:+ s) EmptyString p
  end.

(** [str(p)] for a relative path. *)
Fixpoint rel_str (p : Path) : string :=
  match p with
  | [] => "."
  | [c] => c
  | c :: p' => c +:+ "/" +:+ rel_str p'
  end.

(** [p.parents] for a relative path: [a/b/c] gives [a/b], [a], [.]. *)
Definition parents (p : Path) : list Path :=
  (λ k, take k p) <$> reverse (seq 0 (length p)).

(** [PurePath.match(pattern)] for a relative path: an absolute pattern
    never matches it, a relative one is matched component by component
    from the right; a pattern with no component is a [ValueError]. *)
Definition path_match (p : Path) (pattern : string) : result bool :=
  let pat_parts := components pattern in
  match pat_parts with
  | [] => Raise ValueError
  | _ =>
      if startswith_slash pattern then Ok false
      else if (length p <? length pat_parts)%nat then Ok false
      else Ok (forallb (λ '(part, pat), fnmatchcase part pat)
                       (zip (reverse p) (reverse pat_parts)))
  end.

End Paths.

(** ** The filesystem *)

Inductive node : Type :=
  | Dir
  | File (content : string).

Global Instance node_eq_dec : EqDecision node.
Proof. solve_decision. Defined.

(** Every path that exists, with what is there; the root always exists. *)
Abbreviation FS := (gmap Path node).

Module Fs.
Import Text Paths.

Definition lookup_node (fs : FS) (p : Path) : option node :=
  match p with
  | [] => Some Dir
  | _ => fs !! p
  end.

(** [p.exists()], [p.is_file()], [p.is_dir()] *)
Definition exists_ (fs : FS) (p : Path) : bool :=
  if lookup_node fs p is Some _ then true else false.

Definition is_file (fs : FS) (p : Path) : bool :=
  if lookup_node fs p is Some (File _) then true else false.

Definition is_dir (fs : FS) (p : Path) : bool :=
  if lookup_node fs p is Some Dir then true else false.

(** The bytes of a regular file, if [p] is one. *)
Definition file_at (fs : FS) (p : Path) : option string :=
  match lookup_node fs p with
  | Some (File c) => Some c
  | _ => None
  end.

(** [open(p, "rb").read()] *)
Definition read_bytes (fs : FS) (p : Path) : result string :=
  match lookup_node fs p with
  | Some (File c) => Ok c
  | Some Dir => Raise IsADirectoryError
  | None => Raise FileNotFoundError
  end.

(** [p.read_text(encoding="utf-8")]: the bytes through universal newlines.
    The model identifies a text with its UTF-8 encoding. *)
Definition read_text (fs : FS) (p : Path) : result string :=
  result_bind (read_bytes fs p) (λ c, Ok (universal_newlines c)).

(** [p.open("r", encoding="utf-8").readlines()] *)
Definition readlines (fs : FS) (p : Path) : result (list string) :=
  result_bind (read_text fs p) (λ t, Ok (split_lines t)).

(** [p.write_text(data)] on POSIX, where LF is written as it is: the
    parent has to be a directory and [p] must not be one. *)
Definition write_text (fs : FS) (p : Path) (data : string) : result FS :=
  match lookup_node fs (parent p) with
  | Some Dir =>
      match lookup_node fs p with
      | Some Dir => Raise IsADirectoryError
      | _ => Ok (<[p := File data]> fs)
      end
  | Some (File _) => Raise NotADirectoryError
  | None => Raise FileNotFoundError
  end.

(** [p.mkdir(parents=True, exist_ok=True)]: walking down from the root,
    every missing component becomes a directory; a regular file in the way
    is an error. *)
Fixpoint mkdir_from (fs : FS) (done : Path) (todo : list string) : result FS :=
  match todo with
  | [] => Ok fs
  | c :: todo' =>
      let q := done ++ [c] in
      match fs !! q with
      | Some Dir => mkdir_from fs q todo'
      | Some (File _) =>
          Raise (if todo' is [] then FileExistsError else NotADirectoryError)
      | None => mkdir_from (<[q := Dir]> fs) q todo'
      end
  end.

Definition mkdir_parents (fs : FS) (p : Path) : result FS := mkdir_from fs [] p.

(** [p.unlink()] *)
Definition unlink (fs : FS) (p : Path) : result FS :=
  match lookup_node fs p with
  | Some (File _) => Ok (delete p fs)
  | Some Dir => Raise IsADirectoryError
  | None => Raise FileNotFoundError
  end.

(** What lies strictly below [d]. *)
Definition below (d p : Path) : Prop := d `prefix_of` p ∧ d ≠ p.

Global Instance below_dec d p : Decision (below d p).
Proof. unfold below. apply _. Defined.

Definition subtree (fs : FS) (d : Path) : FS :=
  filter (λ kv, d `prefix_of` kv.1) fs.

Definition outside (fs : FS) (d : Path) : FS :=
  filter (λ kv, ¬ d `prefix_of` kv.1) fs.

Definition has_children (fs : FS) (d : Path) : bool :=
  bool_decide (filter (λ kv, below d kv.1) fs ≠ ∅).

(** [src.rename(dst)], POSIX [rename(2)]: a regular file replaces a regular
    file or takes a free name; a directory moves with all that is below it
    and may replace an empty directory only. *)
Definition rename (fs : FS) (src dst : Path) : result FS :=
  match lookup_node fs src with
  | None => Raise FileNotFoundError
  | Some (File c) =>
      match lookup_node fs (parent dst) with
      | Some Dir =>
          match lookup_node fs dst with
          | Some Dir => Raise IsADirectoryError
          | _ => Ok (<[dst := File c]> (delete src fs))
          end
      | Some (File _) => Raise NotADirectoryError
      | None => Raise FileNotFoundError
      end
  | Some Dir =>
      match src, dst with
      | [], _ | _, [] => Raise OSError
      | _, _ =>
          if decide (src = dst) then Ok fs
          else if decide (src `prefix_of` dst) then Raise OSError
          else match lookup_node fs (parent dst) with
               | Some Dir =>
                   match lookup_node fs dst with
                   | Some (File _) => Raise NotADirectoryError
                   | Some Dir =>
                       if has_children fs dst then Raise OSError
                       else Ok (kmap (λ p, dst ++ drop (length src) p) (subtree fs src)
                                  ∪ outside (delete dst fs) src)
                   | None =>
                       Ok (kmap (λ p, dst ++ drop (length src) p) (subtree fs src)
                             ∪ outside fs src)
                   end
               | Some (File _) => Raise NotADirectoryError
               | None => Raise FileNotFoundError
               end
      end
  end.

(** [d.rglob("*")]: every path strictly below [d], in the order the
    directory scan happens to give. *)
Definition rglob (fs : FS) (d : Path) : list Path :=
  filter (below d) (map fst (map_to_list fs)).

End Fs.

(** ** The syncer: configuration, state, and what lies outside the script *)

Inductive Policy : Type :=
  | APPEND
  | OVERWRITE
  | PREPEND_SOURCE_STATEMENT.

Global Instance Policy_eq_dec : EqDecision Policy.
Proof. solve_decision. Defined.

Definition EXCLUDE_PATTERNS : list string :=
  [ ".git/"; "__pycache__/"; "debug_home/"; ".gitignore"; ".sync_state.json";
    "setup.py"; "setup.sh"; "README.md" ].

(** A sync-state entry is a [dict] from field names to strings; the store is
    a [dict] from [str(source_path)] to entries.  [str] is one-to-one on
    paths, so the model keys the store (and [specific_policies], keyed by
    [str] of the relative path) by the path itself. *)
Abbreviation Entry := (gmap string string).
Abbreviation SyncState := (gmap Path (gmap string string)).

(** The attributes of a [ConfigSyncer] that never change after [__init__]. *)
Record ConfigSyncer : Type := {
  target_dir_path : Path;
  configs_dir_path : Path;
  state_file_path : Path;
  exclude_patterns : list string;
  default_policy : Policy;
  specific_policies : gmap Path Policy;
}.

(** What a run reads and changes: the filesystem, the lines the operator
    will type, the clock, and [self.sync_state]. *)
Record State : Type := mkState {
  disk : FS;
  stdin : list string;
  clock : nat;
  sync_state : SyncState;
}.

Definition set_disk (d : FS) (s : State) : State :=
  mkState d (stdin s) (clock s) (sync_state s).
Definition set_stdin (i : list string) (s : State) : State :=
  mkState (disk s) i (clock s) (sync_state s).
Definition set_clock (c : nat) (s : State) : State :=
  mkState (disk s) (stdin s) c (sync_state s).
Definition set_sync_state (m : SyncState) (s : State) : State :=
  mkState (disk s) (stdin s) (clock s) m.

(** The library functions the script calls and the model leaves abstract:
    [hashlib.md5(b).hexdigest()], [json.load] on the text of the state file
    ([None] when it does not parse), [json.dump(..., indent=4)], and
    [isoformat()] of the clock reading. *)
Class Runtime : Type := {
  md5_hexdigest : string → string;
  json_load : string → option SyncState;
  json_dump : SyncState → string;
  isoformat : nat → string;
}.

(** ** The monad of the methods: state that survives an exception *)

Definition M (A : Type) : Type := State → result A * State.

Definition ret {A} (a : A) : M A := λ s, (Ok a, s).

Definition bind {A B} (m : M A) (k : A → M B) : M B := λ s,
  match m s with
  | (Ok a, s') => k a s'
  | (Raise e, s') => (Raise e, s')
  end.

Declare Scope syncer_scope.
Delimit Scope syncer_scope with syncer.
Notation "x ← y ; z" := (bind y (λ x, z))
  (at level 20, y at level 100, z at level 200, only parsing) : syncer_scope.
Notation "y ;; z" := (bind y (λ _, z))
  (at level 100, z at level 200, only parsing, right associativity) : syncer_scope.
Local Open Scope syncer_scope.

Definition raise {A} (e : exn) : M A := λ s, (Raise e, s).

(** Reading and changing the state. *)
Definition gets {A} (f : State → A) : M A := λ s, (Ok (f s), s).
Definition modify (f : State → State) : M unit := λ s, (Ok tt, f s).

(** A computation that may fail and changes nothing. *)
Definition pure_result {A} (r : result A) : M A := λ s, (r, s).

(** A read of the filesystem. *)
Definition reading {A} (f : FS → result A) : M A := λ s, (f (disk s), s).

(** A change of the filesystem; nothing changes when it fails. *)
Definition writing (f : FS → result FS) : M unit := λ s,
  match f (disk s) with
  | Ok d => (Ok tt, set_disk d s)
  | Raise e => (Raise e, s)
  end.

(** [try: body  except Exception as e: handler e] *)
Definition try_except {A} (body : M A) (handler : exn → M A) : M A := λ s,
  match body s with
  | (Ok a, s') => (Ok a, s')
  | (Raise e, s') => handler e s'
  end.

(** [try: body  finally: final]: [final] runs on every way out of [body],
    and an exception of its own replaces what [body] gave. *)
Definition try_finally {A} (body : M A) (final : M unit) : M A := λ s,
  match body s with
  | (r, s') =>
      match final s' with
      | (Ok _, s'') => (r, s'')
      | (Raise e, s'') => (Raise e, s'')
      end
  end.

(** [for x in l: body x] *)
Fixpoint for_each {A} (l : list A) (body : A → M unit) : M unit :=
  match l with
  | [] => ret tt
  | x :: l' => body x ;; for_each l' body
  end.

(** [[f x for x in l]] with an [f] that may raise. *)
Fixpoint map_result {A B} (f : A → result B) (l : list A) : result (list B) :=
  match l with
  | [] => Ok []
  | x :: l' => result_bind (f x) (λ y, result_bind (map_result f l') (λ ys, Ok (y :: ys)))
  end.

(** ** The methods of [ConfigSyncer] *)

Section Syncer.
Import Text Paths Fs.
Context `{Runtime}.
Variable self : ConfigSyncer.

(** [input(message)]: the next line the operator types, [EOFError] when
    there is none.  What is printed is not modelled. *)
Definition input : M string := λ s,
  match stdin s with
  | [] => (Raise EOFError, s)
  | r :: rest => (Ok r, set_stdin rest s)
  end.

(** The answer [_prompt_for_confirmation] reads out of a response. *)
Definition confirms (response : string) : bool :=
  bool_decide (lower (strip response) ∈ ["y"; "yes"]).

Definition _prompt_for_confirmation : M bool :=
  response ← input; ret (confirms response).

Definition _load_sync_state : M SyncState :=
  present ← reading (λ fs, Ok (exists_ fs (state_file_path self)));
  if negb present then ret ∅
  else
    text ← reading (λ fs, read_text fs (state_file_path self));
    match json_load text with
    | Some m => ret m
    | None => raise JSONDecodeError
    end.

Definition _save_sync_state : M unit :=
  m ← gets sync_state;
  writing (λ fs, write_text fs (state_file_path self) (json_dump m)).

(** [self.specific_policies.get(str(source.relative_to(configs)), default)] *)
Definition policy_of (source : Path) : result Policy :=
  result_bind (relative_to source (configs_dir_path self))
    (λ rel, Ok (default (default_policy self) (specific_policies self !! rel))).

(** [f'# Source personal configs\nsource "{source_file}"'] and
    [f'source "{source_file}"\n'] *)
Definition source_statement (source_file : Path) : string :=
  "# Source personal configs" +:+ nl +:+ "source " +:+ dq +:+ path_str source_file +:+ dq.

Definition expected_statement (source_file : Path) : string :=
  "source " +:+ dq +:+ path_str source_file +:+ dq +:+ nl.

Definition _sync_by_policy (source_file target_file tmp_target_file : Path)
    (policy : Policy) (force : bool) : M bool :=
  writing (λ fs, mkdir_parents fs (parent target_file));;
  append_text ← reading (λ fs, read_text fs source_file);
  target_exists ← reading (λ fs, Ok (exists_ fs target_file));
  if target_exists then
    go ← (if force then ret true else _prompt_for_confirmation);
    if negb go then ret false
    else
      match policy with
      | APPEND =>
          origin_text ← reading (λ fs, read_text fs target_file);
          writing (λ fs, write_text fs tmp_target_file
                           (origin_text +:+ nl +:+ nl +:+ append_text))
      | OVERWRITE =>
          writing (λ fs, write_text fs tmp_target_file append_text)
      | PREPEND_SOURCE_STATEMENT =>
          origin_lines ← reading (λ fs, readlines fs target_file);
          if (length origin_lines <? 2)%nat
             || negb (bool_decide (origin_lines !! 1%nat = Some (expected_statement source_file)))
          then
            let origin_text := join origin_lines in
            writing (λ fs, write_text fs tmp_target_file
                             (source_statement source_file +:+ nl +:+ nl +:+ origin_text))
          else ret tt
      end;;
      ret true
  else
    go ← (if force then ret true else _prompt_for_confirmation);
    if negb go then ret false
    else
      let append_text :=
        match policy with
        | PREPEND_SOURCE_STATEMENT => source_statement source_file
        | _ => append_text
        end in
      writing (λ fs, write_text fs tmp_target_file append_text);;
      ret true.

(** [{f: False for f in source_files}] *)
Definition none_synced (source_files : list Path) : gmap Path bool :=
  list_to_map ((λ f, (f, false)) <$> source_files).

(** The first loop of [sync]: stage every candidate, recording in
    [synced] what [_sync_by_policy] returned for it. *)
Fixpoint stage_all (candidates : list (Path * Path * Path)) (force : bool)
    (synced : gmap Path bool) : M (gmap Path bool) :=
  match candidates with
  | [] => ret synced
  | (source, target, tmp_target) :: rest =>
      policy ← pure_result (policy_of source);
      done ← _sync_by_policy source target tmp_target policy force;
      stage_all rest force (<[source := done]> synced)
  end.

(** The body of the second loop: [if tmp_target.exists(): tmp_target.rename(target)] *)
Definition promote (candidate : Path * Path * Path) : M unit :=
  let '(_, target, tmp_target) := candidate in
  staged ← reading (λ fs, Ok (exists_ fs tmp_target));
  if staged then writing (λ fs, rename fs tmp_target target) else ret tt.

(** The second loop: every staging file that exists moves onto its target. *)
Definition promote_all (candidates : list (Path * Path * Path)) : M unit :=
  for_each candidates promote.

(** [{str(f): self.sync_state[str(f)] for f in source_files if synced[f]}]:
    [KeyError] at the first synced file that has no entry.  A file listed
    twice gets the same entry twice, so the order of insertion is free. *)
Fixpoint updated_sync_states (mem : SyncState) (synced : gmap Path bool)
    (source_files : list Path) : result SyncState :=
  match source_files with
  | [] => Ok ∅
  | f :: rest =>
      match synced !! f with
      | None => Raise KeyError
      | Some false => updated_sync_states mem synced rest
      | Some true =>
          match mem !! f with
          | None => Raise KeyError
          | Some e => result_bind (updated_sync_states mem synced rest) (λ u, Ok (<[f := e]> u))
          end
      end
  end.

(** The body of the loop in the [finally] clause:
    [if tmp_target.exists(): tmp_target.unlink()] *)
Definition remove_staging_file (tmp_target : Path) : M unit :=
  left_over ← reading (λ fs, Ok (exists_ fs tmp_target));
  if left_over then writing (λ fs, unlink fs tmp_target) else ret tt.

(** The [finally] clause of [sync]. *)
Definition cleanup (tmp_target_files : list Path) : M unit :=
  for_each tmp_target_files remove_staging_file.

Definition target_of (source : Path) : result Path :=
  result_bind (relative_to source (configs_dir_path self))
    (λ rel, Ok (joinpath (target_dir_path self) rel)).

(** The body of the [try] block of [sync]. *)
Definition sync_body (source_files : list Path) (candidates : list (Path * Path * Path))
    (force : bool) : M Z :=
  synced ← stage_all candidates force (none_synced source_files);
  promote_all candidates;;
  mem ← gets sync_state;
  updated ← pure_result (updated_sync_states mem synced source_files);
  on_disk ← _load_sync_state;
  modify (set_sync_state (updated ∪ on_disk));;
  _save_sync_state;;
  ret 0%Z.

Definition sync (source_files : list Path) (force : bool) : M Z :=
  target_files ← pure_result (map_result target_of source_files);
  tmp_target_files ← pure_result (map_result with_tmp_suffix target_files);
  try_finally
    (try_except
       (sync_body source_files (zip (zip source_files target_files) tmp_target_files) force)
       (λ _, ret 1%Z))
    (cleanup tmp_target_files).

(** [_compute_file_hash] *)
Definition _compute_file_hash (file_path : Path) : M string :=
  reading (λ fs, result_bind (read_bytes fs file_path) (λ b, Ok (md5_hexdigest b))).

Definition _validate_expected_condition (source_path target_path : Path) : M bool :=
  policy ← pure_result (policy_of source_path);
  match policy with
  | PREPEND_SOURCE_STATEMENT =>
      target_lines ← reading (λ fs, readlines fs target_path);
      match target_lines !! 1%nat with
      | Some line => ret (bool_decide (line = expected_statement source_path))
      | None => raise IndexError
      end
  | _ =>
      source_hash ← _compute_file_hash source_path;
      target_hash ← _compute_file_hash target_path;
      ret (bool_decide (source_hash = target_hash))
  end.

(** The loop over [self.exclude_patterns] at the head of
    [_validate_exclude]: [true] as soon as one pattern excludes the path. *)
Fixpoint excluded_by_pattern (relative_path : Path) (patterns : list string) : result bool :=
  match patterns with
  | [] => Ok false
  | pattern :: rest =>
      if endswith_slash pattern then
        if existsb (λ part, bool_decide (rel_str part = drop_last pattern))
                   (parents relative_path)
        then Ok true
        else excluded_by_pattern relative_path rest
      else
        result_bind (path_match relative_path pattern)
          (λ m, if m then Ok true else excluded_by_pattern relative_path rest)
  end.

(** [datetime.now().isoformat()]; the clock moves on with every reading. *)
Definition now_isoformat : M string := λ s,
  (Ok (isoformat (clock s)), set_clock (S (clock s)) s).

(** [self.sync_state[str(source_path)][key] = value]; the entry is there
    whenever the script does this. *)
Definition set_entry_field (source_path : Path) (key value : string) : M unit := λ s,
  match sync_state s !! source_path with
  | Some e => (Ok tt, set_sync_state (<[source_path := <[key := value]> e]> (sync_state s)) s)
  | None => (Raise KeyError, s)
  end.

Definition _validate_exclude (source_path : Path) : M bool :=
  relative_path ← pure_result (relative_to source_path (configs_dir_path self));
  excluded ← pure_result (excluded_by_pattern relative_path (exclude_patterns self));
  if excluded then ret true
  else
    timestamp ← now_isoformat;
    previous_hash ← gets (λ s, default ∅ (sync_state s !! source_path) !! "hash");
    current_hash ← _compute_file_hash source_path;
    known ← gets (λ s, bool_decide (is_Some (sync_state s !! source_path)));
    if negb known then
      modify (λ s, set_sync_state (<[source_path := ∅]> (sync_state s)) s);;
      set_entry_field source_path "hash" current_hash;;
      set_entry_field source_path "last sync timestamp" timestamp;;
      set_entry_field source_path "sync reason" "New file to be synced";;
      ret false
    else if negb (bool_decide (previous_hash = Some current_hash)) then
      set_entry_field source_path "hash" current_hash;;
      set_entry_field source_path "last sync timestamp" timestamp;;
      set_entry_field source_path "sync reason"
        "Source File is modified (hash mismatch) since last sync";;
      ret false
    else
      let target_path := joinpath (target_dir_path self) relative_path in
      target_exists ← reading (λ fs, Ok (exists_ fs target_path));
      if negb target_exists then
        set_entry_field source_path "last sync timestamp" timestamp;;
        set_entry_field source_path "sync reason"
          "Target file dose not exist or is deleted since last sync";;
        ret false
      else
        met ← _validate_expected_condition source_path target_path;
        if negb met then
          set_entry_field source_path "last sync timestamp" timestamp;;
          set_entry_field source_path "sync reason"
            "Target file does not meet the expected condition";;
          ret false
        else ret true.

(** The loop of [get_syncing_files] over what [rglob] gave. *)
Fixpoint collect_syncing_files (paths : list Path) : M (list Path) :=
  match paths with
  | [] => ret []
  | file_path :: rest =>
      regular ← reading (λ fs, Ok (is_file fs file_path));
      if negb regular then collect_syncing_files rest
      else
        skip ← _validate_exclude file_path;
        if skip then collect_syncing_files rest
        else
          more ← collect_syncing_files rest;
          ret (file_path :: more)
  end.

Definition get_syncing_files : M (list Path) :=
  paths ← reading (λ fs, Ok (rglob fs (configs_dir_path self)));
  collect_syncing_files paths.

(** The last lines of the script: [sys.exit(syncer.sync(syncer.get_syncing_files(),
    force=args.force))]. *)
Definition main_sync (force : bool) : M Z :=
  syncing_files ← get_syncing_files;
  sync syncing_files force.

End Syncer.

(** ** Notions the statements are written with *)

Section Notions.
Import Text Paths Fs.

(** How a filesystem can change while files are staged: a path keeps what it
    has, or it was free and is now a directory (one of [D]), or it was not a
    directory and is now a regular file (one of [W]). *)
Definition evolves (W D : Path → Prop) (d d' : FS) : Prop :=
  ∀ p, d' !! p = d !! p
     ∨ (d !! p = None ∧ d' !! p = Some Dir ∧ D p)
     ∨ (d !! p ≠ Some Dir ∧ (∃ x, d' !! p = Some (File x)) ∧ W p).

(** Whatever the outcome of [m], the states before and after are related
    by [R]. *)
Definition keeps (R : relation State) {A} (m : M A) : Prop :=
  ∀ s r s', m s = (r, s') → R s s'.

(** The footprint of staging: the filesystem evolves, within [W] for files
    and [D] for directories; the store and the clock stay; the operator's
    remaining lines are a tail of what they were. *)
Definition staged (W D : Path → Prop) (s s' : State) : Prop :=
  evolves W D (disk s) (disk s')
  ∧ sync_state s' = sync_state s
  ∧ clock s' = clock s
  ∧ stdin s' `suffix_of` stdin s.

(** The promotion loop and the [finally] clause leave [self.sync_state],
    the clock and the operator's lines alone. *)
Definition same_session (s s' : State) : Prop :=
  sync_state s' = sync_state s ∧ stdin s' = stdin s ∧ clock s' = clock s.

(** What the [finally] clause may do: remove staging paths. *)
Definition removes (W : Path → Prop) (s s' : State) : Prop :=
  same_session s s' ∧ ∀ p, disk s' !! p = disk s !! p ∨ (W p ∧ disk s' !! p = None).

(** The staging paths and the targets of a list of candidates. *)
Definition staging_path (tmps : list Path) (p : Path) : Prop := p ∈ tmps.
Definition on_target_path (targets : list Path) (q : Path) : Prop :=
  ∃ t, t ∈ targets ∧ q `prefix_of` parent t.

End Notions.

(** Whether the character [c] occurs in [s]. *)
Fixpoint has_char (c : ascii) (s : string) : bool :=
  match s with
  | EmptyString => false
  | String d s' => Ascii.eqb c d || has_char c s'
  end.

(** ** The commands of the script *)

Section Commands.
Import Text Paths Fs.
Context `{Runtime}.
Variable self : ConfigSyncer.

(** What [ConfigSyncer.__init__] does besides storing its arguments:
    [self.sync_state = self._load_sync_state()]. *)
Definition __init__ : M unit :=
  m ← _load_sync_state self;
  modify (set_sync_state m).

(** [show_sync_state] prints, and printing is not modelled. *)
Definition show_sync_state : M unit := ret tt.

Definition clear_sync_state : M unit :=
  m ← gets sync_state;
  if bool_decide (m = ∅) then ret tt
  else
    modify (set_sync_state ∅);;
    _save_sync_state self.

End Commands.

(** [validation_check(configs_dir_path)], with [Path.cwd()] as [cwd]. *)
Definition validation_check (cwd configs_dir_path : Path) : M bool :=
  reading (λ fs,
    if negb (Fs.exists_ fs configs_dir_path) || negb (Fs.is_dir fs configs_dir_path)
    then Ok false
    else if negb (bool_decide (cwd = configs_dir_path)) then Ok false
    else Ok true).

(** The [Namespace] that [parse_arguments] returns. *)
Record Namespace : Type := {
  append : bool;
  overwrite : bool;
  force : bool;
  show_state : bool;
  clear_state : bool;
  debug : bool;
}.

(** The options [parse_arguments] declares, as [argparse] recognises them
    on the command line, [-h] included. *)
Inductive Flag : Type :=
  | Help
  | Append
  | Overwrite
  | Force
  | ShowState
  | ClearState
  | Debug.

(** The values of the options before any is seen: [store_true] starts at
    [False], except where [default=True] is given. *)
Definition defaults : Namespace :=
  {| append := false; overwrite := true; force := false;
     show_state := false; clear_state := false; debug := false |}.

(** How [parser.parse_args()] ends: with a [Namespace], or with
    [SystemExit] after the help text (0) or a usage error (2). *)
Inductive Parsed : Type :=
  | Args (args : Namespace)
  | Usage (code : Z).

(** The options are taken from left to right.  [store_true] sets its
    attribute; [--append] and [--overwrite] are in one mutually exclusive
    group, so each is an error once the other was seen. *)
Fixpoint take_actions (flags : list Flag) (seen_append seen_overwrite : bool)
    (ns : Namespace) : Parsed :=
  match flags with
  | [] => Args ns
  | Help :: _ => Usage 0
  | Append :: rest =>
      if seen_overwrite then Usage 2
      else take_actions rest true seen_overwrite
             {| append := true; overwrite := overwrite ns; force := force ns;
                show_state := show_state ns; clear_state := clear_state ns;
                debug := debug ns |}
  | Overwrite :: rest =>
      if seen_append then Usage 2
      else take_actions rest seen_append true
             {| append := append ns; overwrite := true; force := force ns;
                show_state := show_state ns; clear_state := clear_state ns;
                debug := debug ns |}
  | Force :: rest =>
      take_actions rest seen_append seen_overwrite
        {| append := append ns; overwrite := overwrite ns; force := true;
           show_state := show_state ns; clear_state := clear_state ns;
           debug := debug ns |}
  | ShowState :: rest =>
      take_actions rest seen_append seen_overwrite
        {| append := append ns; overwrite := overwrite ns; force := force ns;
           show_state := true; clear_state := clear_state ns;
           debug := debug ns |}
  | ClearState :: rest =>
      take_actions rest seen_append seen_overwrite
        {| append := append ns; overwrite := overwrite ns; force := force ns;
           show_state := show_state ns; clear_state := true;
           debug := debug ns |}
  | Debug :: rest =>
      take_actions rest seen_append seen_overwrite
        {| append := append ns; overwrite := overwrite ns; force := force ns;
           show_state := show_state ns; clear_state := clear_state ns;
           debug := true |}
  end.

(** [parse_arguments()], on the options of the command line. *)
Definition parse_arguments (flags : list Flag) : Parsed :=
  take_actions flags false false defaults.

(** [DEFAULT_POLICY] as the [if]/[elif] of the script binds it; [None]
    when neither branch is taken and the name stays unbound. *)
Definition DEFAULT_POLICY (args : Namespace) : option Policy :=
  if overwrite args then Some OVERWRITE
  else if append args then Some APPEND
  else None.

Definition SPECIFIC_POLICIES : gmap Path Policy :=
  {[ [".bashrc"] := PREPEND_SOURCE_STATEMENT; [".zshrc"] := PREPEND_SOURCE_STATEMENT ]}.

(** How the script ends: [sys.exit(code)], an exception nobody catches, or
    the [NameError] of an unbound [DEFAULT_POLICY]. *)
Inductive Termination : Type :=
  | SystemExit (code : Z)
  | Uncaught (e : exn)
  | NameError.

(** One statement of the script after another: an exception ends the run. *)
Definition and_then {A} (m : M A) (k : A → State → Termination * State)
    : State → Termination * State := λ s,
  match m s with
  | (Ok a, s') => k a s'
  | (Raise e, s') => (Uncaught e, s')
  end.

Definition sys_exit (code : Z) : State → Termination * State := λ s, (SystemExit code, s).

Section Script.
Context `{Runtime}.

(** The script below [if __name__ == "__main__":], after [parse_arguments];
    [home] is [Path.home()] and [cwd] is [Path.cwd()]. *)
Definition main (home cwd : Path) (args : Namespace) : State → Termination * State :=
  let TARGET_DIR_PATH := if debug args then cwd ++ ["debug_home"] else home in
  let CONFIGS_DIR_PATH := home ++ ["configs"] in
  let STATE_FILE_PATH := CONFIGS_DIR_PATH ++ [".sync_state.json"] in
  and_then (validation_check cwd CONFIGS_DIR_PATH) (λ valid,
    if negb valid then sys_exit 1
    else
      match DEFAULT_POLICY args with
      | None => λ s, (NameError, s)
      | Some policy =>
          let syncer :=
            {| target_dir_path := TARGET_DIR_PATH;
               configs_dir_path := CONFIGS_DIR_PATH;
               state_file_path := STATE_FILE_PATH;
               exclude_patterns := EXCLUDE_PATTERNS;
               default_policy := policy;
               specific_policies := SPECIFIC_POLICIES |} in
          and_then (__init__ syncer) (λ _,
            if show_state args then and_then (show_sync_state) (λ _, sys_exit 0)
            else if clear_state args then and_then (clear_sync_state syncer) (λ _, sys_exit 0)
            else
              and_then (get_syncing_files syncer) (λ syncing_files,
                and_then (sync syncer syncing_files (force args)) sys_exit))
      end).

End Script.

(** ** What detection may change *)

(** The footprint of [_validate_exclude] on [source]: the filesystem and
    the operator's lines stay, the clock does not go back, no entry other
    than that of [source] changes, and an entry that is there stays. *)
Definition detects (source : Path) (s s' : State) : Prop :=
  disk s' = disk s
  ∧ stdin s' = stdin s
  ∧ (clock s ≤ clock s')%nat
  ∧ (∀ p, p ≠ source → sync_state s' !! p = sync_state s !! p)
  ∧ (is_Some (sync_state s !! source) → is_Some (sync_state s' !! source)).

(** ** A concrete installation, for the examples *)

Module Example.
Import Text Paths Fs.

(** A length-prefixed text form of the store, standing in for JSON: each
    string is written as its length, a colon, and the string; an entry is
    the number of path components, the components, the number of fields,
    and the fields as key and value. *)
Definition put (s : string) : string := pretty (String.length s) +:+ ":" +:+ s.

Definition put_entry (pe : Path * gmap string string) : list string :=
  pretty (length pe.1) :: pe.1
  ++ pretty (size pe.2) :: (map_to_list pe.2 ≫= λ kv, [kv.1; kv.2]).

Definition json_dump_text (m : SyncState) : string :=
  foldr (λ s t, put s +:+ t) EmptyString (map_to_list m ≫= put_entry).

Fixpoint number (s : string) (acc : nat) : option nat :=
  match s with
  | EmptyString => Some acc
  | String c s' =>
      let d := nat_of_ascii c in
      if (48 <=? d)%nat && (d <=? 57)%nat then number s' (acc * 10 + (d - 48)) else None
  end.

(** The text up to the first colon, and the text after it. *)
Fixpoint upto_colon (s : string) : option (string * string) :=
  match s with
  | EmptyString => None
  | String c s' =>
      if Ascii.eqb c ":"%char then Some (EmptyString, s')
      else match upto_colon s' with
           | Some (a, b) => Some (String c a, b)
           | None => None
           end
  end.

Fixpoint chars (n : nat) (s : string) : option (string * string) :=
  match n, s with
  | O, _ => Some (EmptyString, s)
  | S n', String c s' =>
      match chars n' s' with
      | Some (a, b) => Some (String c a, b)
      | None => None
      end
  | S _, EmptyString => None
  end.

Fixpoint strings (fuel : nat) (text : string) : option (list string) :=
  match fuel, text with
  | _, EmptyString => Some []
  | O, _ => None
  | S fuel', _ =>
      match upto_colon text with
      | Some (digits, rest) =>
          match number digits 0 with
          | Some n =>
              match chars n rest with
              | Some (s, rest') =>
                  match strings fuel' rest' with
                  | Some l => Some (s :: l)
                  | None => None
                  end
              | None => None
              end
          | None => None
          end
      | None => None
      end
  end.

Fixpoint fields (n : nat) (l : list string) : option (list (string * string) * list string) :=
  match n, l with
  | O, _ => Some ([], l)
  | S n', k :: v :: l' =>
      match fields n' l' with
      | Some (kvs, rest) => Some ((k, v) :: kvs, rest)
      | None => None
      end
  | S _, _ => None
  end.

Fixpoint entries (fuel : nat) (l : list string) : option (list (Path * gmap string string)) :=
  match fuel, l with
  | _, [] => Some []
  | O, _ => None
  | S fuel', c :: l1 =>
      match number c 0 with
      | Some n =>
          if (length l1 <? n)%nat then None
          else match drop n l1 with
               | k :: l2 =>
                   match number k 0 with
                   | Some m =>
                       match fields m l2 with
                       | Some (kvs, l3) =>
                           match entries fuel' l3 with
                           | Some es => Some ((take n l1, list_to_map kvs) :: es)
                           | None => None
                           end
                       | None => None
                       end
                   | None => None
                   end
               | [] => None
               end
      | None => None
      end
  end.

Definition json_load_text (text : string) : option SyncState :=
  match strings (String.length text) text with
  | Some l =>
      match entries (length l) l with
      | Some es => Some (list_to_map es)
      | None => None
      end
  | None => None
  end.

(** The runtime of the examples.  The digest is the identity, which like
    MD5 in practice never takes two contents to one digest; the state file
    is read and written in the text form above; the clock counts seconds.
    The theorems below hold for every runtime; this one makes runs
    computable. *)
Definition runtime : Runtime := {|
  md5_hexdigest := λ b, b;
  json_load := json_load_text;
  json_dump := json_dump_text;
  isoformat := λ n, "2026-01-01T00:00:0" +:+ pretty n;
|}.

Definition home : Path := ["home"; "u"].
Definition configs : Path := ["home"; "u"; "configs"].

Definition syncer : ConfigSyncer := {|
  target_dir_path := home;
  configs_dir_path := configs;
  state_file_path := configs ++ [".sync_state.json"];
  exclude_patterns := EXCLUDE_PATTERNS;
  default_policy := OVERWRITE;
  specific_policies := {[ [".bashrc"] := PREPEND_SOURCE_STATEMENT;
                          [".zshrc"] := PREPEND_SOURCE_STATEMENT ]};
|}.

Definition base_dirs : list (Path * node) :=
  [ (["home"], Dir); (home, Dir); (configs, Dir) ].

Definition fresh (files : list (Path * node)) (lines : list string) : State :=
  mkState (list_to_map (base_dirs ++ files)) lines 0 ∅.

(** A batch in which one candidate's staging path is another candidate's
    target, and a third candidate cannot be staged. *)
Definition collide : State :=
  fresh [ (configs ++ ["a"], File "new a");
          (configs ++ ["a.tmp_sync"], File "notes");
          (configs ++ ["d"], Dir);
          (configs ++ ["d"; "x"], File "x");
          (home ++ ["a.tmp_sync"], File "precious");
          (home ++ ["d"], File "in the way") ] [].

Definition collide_batch : list Path :=
  [ configs ++ ["a"]; configs ++ ["a.tmp_sync"]; configs ++ ["d"; "x"] ].

(** A batch whose second candidate cannot be staged, with nothing unusual
    about its staging paths. *)
Definition blocked : State :=
  fresh [ (configs ++ ["a"], File "new a");
          (configs ++ ["d"], Dir);
          (configs ++ ["d"; "x"], File "x");
          (home ++ ["a"], File "old a");
          (home ++ ["d"], File "in the way") ] [].

Definition blocked_batch : list Path := [ configs ++ ["a"]; configs ++ ["d"; "x"] ].
Definition blocked_targets : list Path := [ home ++ ["a"]; home ++ ["d"; "x"] ].
Definition blocked_tmps : list Path := [ home ++ ["a.tmp_sync"]; home ++ ["d"; "x.tmp_sync"] ].


(** A source two directories down whose target directory does not exist
    yet, and an operator who says no. *)
Definition nested : State :=
  fresh [ (configs ++ ["nvim"], Dir);
          (configs ++ ["nvim"; "init.lua"], File "set number") ] ["n"].

(** An existing target to append to. *)
Definition appending : State :=
  fresh [ (configs ++ ["notes"], File "B"); (home ++ ["notes"], File "A") ] [].

(** What detection records for a file with content [content]. *)
Definition entry_of (content reason : string) : gmap string string :=
  {[ "hash" := content; "last sync timestamp" := "2025-12-31T23:59:59";
     "sync reason" := reason ]}.

(** A file synced before, whose target has since been deleted. *)
Definition target_gone : State :=
  mkState (list_to_map (base_dirs ++ [ (configs ++ ["vimrc"], File "set nu") ])) [] 7
          {[ configs ++ ["vimrc"] := entry_of "set nu" "New file to be synced" ]}.

(** Two new files, detected in this order; the operator declines the first
    and accepts the second. *)
Definition two_prompts_batch : list Path := [ configs ++ ["a"]; configs ++ ["b"] ].
Definition two_prompts : State :=
  (@collect_syncing_files runtime syncer two_prompts_batch
     (fresh [ (configs ++ ["a"], File "alpha"); (configs ++ ["b"], File "beta") ]
            ["n"; "yes"])).2.

(** [.bashrc] with the directive already on the second line of the target. *)
Definition bashrc : Path := configs ++ [".bashrc"].
Definition prepended : string :=
  source_statement bashrc +:+ nl +:+ nl +:+ "alias ll=ls" +:+ nl.
Definition bashrc_done : State :=
  mkState (list_to_map (base_dirs ++ [ (bashrc, File "export A=1");
                                        (home ++ [".bashrc"], File prepended) ])) [] 3
          {[ bashrc := entry_of "export A=1" "Source File is modified (hash mismatch) since last sync" ]}.

(** The same, with a staging file left behind by an earlier run. *)
Definition bashrc_stale : State :=
  set_disk (<[home ++ [".bashrc.tmp_sync"] := File "left over"]> (disk bashrc_done)) bashrc_done.

(** A byte-code cache one directory down. *)
Definition nested_cache : State :=
  fresh [ (configs ++ ["pkg"], Dir); (configs ++ ["pkg"; "__pycache__"], Dir);
          (configs ++ ["pkg"; "__pycache__"; "m.pyc"], File "bytecode") ] [].

(** A new [.bashrc] with no target yet. *)
Definition bashrc_new : State := fresh [ (bashrc, File "export A=1") ] [].

(** [.bashrc] synced before, its target cut down to one line since. *)
Definition bashrc_short : State :=
  mkState (list_to_map (base_dirs ++ [ (bashrc, File "export A=1");
                                        (home ++ [".bashrc"], File "# mine") ])) [] 3
          {[ bashrc := entry_of "export A=1" "New file to be synced" ]}.

(** A new file with DOS line ends. *)
Definition crlf_text : string := "a" +:+ String CR nl +:+ "b".
Definition crlf_new : State := fresh [ (configs ++ ["dos.conf"], File crlf_text) ] [].

(** The installation in debug mode: the target directory is [debug_home]
    inside the configs directory. *)
Definition debug_syncer : ConfigSyncer := {|
  target_dir_path := configs ++ ["debug_home"];
  configs_dir_path := configs;
  state_file_path := configs ++ [".sync_state.json"];
  exclude_patterns := EXCLUDE_PATTERNS;
  default_policy := OVERWRITE;
  specific_policies := SPECIFIC_POLICIES;
|}.

(** A detected new file, and a state file that is not in the text form. *)
Definition corrupt : State :=
  mkState (list_to_map (base_dirs ++ [ (configs ++ ["a"], File "alpha");
                                        (configs ++ [".sync_state.json"], File "{") ])) [] 1
          {[ configs ++ ["a"] := entry_of "alpha" "New file to be synced" ]}.

(** Two new files, before detection. *)
Definition two_new : State :=
  fresh [ (configs ++ ["a"], File "alpha"); (configs ++ ["b"], File "beta") ] [].

(** The options [--show_state --force]. *)
Definition showing : Namespace :=
  {| append := false; overwrite := true; force := true;
     show_state := true; clear_state := false; debug := false |}.

End Example.


(** Case analysis on [H : x ∈ [a; b; ...]]. *)
Ltac each_member H :=
  repeat (apply elem_of_cons in H as [->|H]); [..|apply elem_of_nil in H; destruct H].

(** Closes a decidable goal on concrete data by evaluation. *)
Ltac by_evaluation :=
  first [ apply (proj1 (bool_decide_eq_false _)); vm_compute; reflexivity
        | apply (bool_decide_unpack _); vm_compute; exact I ].


(** * Facts and theorems *)

Import Text Paths Fs.

(** ** Facts about the monad *)

Lemma bind_inv {A B} (m : M A) (k : A → M B) s r s' :
  bind m k s = (r, s') →
  (∃ a s1, m s = (Ok a, s1) ∧ k a s1 = (r, s')) ∨ (∃ e, m s = (Raise e, s') ∧ r = Raise e).
Proof.
  unfold bind. destruct (m s) as [[a|e] s1]; intros Hk.
  - left. eauto.
  - right. inversion Hk; subst. eauto.
Qed.

Lemma bind_ok {A B} (m : M A) (k : A → M B) s a s1 :
  m s = (Ok a, s1) → bind m k s = k a s1.
Proof. unfold bind. by intros ->. Qed.

Lemma bind_raise {A B} (m : M A) (k : A → M B) s e s1 :
  m s = (Raise e, s1) → bind m k s = (Raise e, s1).
Proof. unfold bind. by intros ->. Qed.

(** ** Facts about paths *)

Lemma parent_prefix (p : Path) : parent p `prefix_of` p.
Proof.
  unfold parent. destruct p as [|c p] using rev_ind; [done|].
  rewrite removelast_last. by apply prefix_app_r.
Qed.

Lemma with_tmp_suffix_inv (p q : Path) :
  with_tmp_suffix p = Ok q →
  ∃ d n, p = d ++ [n] ∧ q = d ++ [n +:+ TMP_SUFFIX].
Proof.
  revert q. induction p as [|c p IH]; intros q; [done|].
  destruct p as [|c' p'].
  - simpl. intros [= <-]. by exists [], c.
  - change (with_tmp_suffix (c :: c' :: p')) with
      (result_bind (with_tmp_suffix (c' :: p')) (λ q, Ok (c :: q))).
    destruct (with_tmp_suffix (c' :: p')) as [q'|] eqn:Hq; [|done].
    simpl. intros [= <-]. destruct (IH q' eq_refl) as (d & n & -> & ->).
    by exists (c :: d), n.
Qed.

Lemma with_tmp_suffix_parent (p q : Path) :
  with_tmp_suffix p = Ok q → parent q = parent p.
Proof.
  intros (d & n & -> & ->)%with_tmp_suffix_inv.
  unfold parent. by rewrite !removelast_last.
Qed.

Lemma length_append (a b : string) :
  String.length (a +:+ b) = String.length a + String.length b.
Proof. induction a as [|c a IH]; simpl; [done|]. by rewrite IH. Qed.

Lemma append_suffix_ne (n : string) : n +:+ TMP_SUFFIX ≠ n.
Proof.
  intros Heq. apply (f_equal String.length) in Heq.
  rewrite length_append in Heq. simpl in Heq. lia.
Qed.

Lemma with_tmp_suffix_ne (p q : Path) : with_tmp_suffix p = Ok q → q ≠ p.
Proof.
  intros (d & n & -> & ->)%with_tmp_suffix_inv Heq.
  apply app_inv_head in Heq. injection Heq as Heq. by apply append_suffix_ne in Heq.
Qed.

Lemma with_tmp_suffix_not_prefix_parent (p q : Path) :
  with_tmp_suffix p = Ok q → ¬ q `prefix_of` parent p.
Proof.
  intros (d & n & -> & ->)%with_tmp_suffix_inv Hpre.
  unfold parent in Hpre. rewrite removelast_last in Hpre.
  apply prefix_length in Hpre. rewrite length_app in Hpre. simpl in Hpre. lia.
Qed.

Lemma append_inj_l (a b s : string) : a +:+ s = b +:+ s → a = b.
Proof.
  revert b. induction a as [|c a IH]; intros [|c' b]; simpl; intros Heq; try done.
  - exfalso. apply (f_equal String.length) in Heq.
    simpl in Heq. rewrite !length_append in Heq. simpl in Heq. lia.
  - exfalso. apply (f_equal String.length) in Heq.
    simpl in Heq. rewrite !length_append in Heq. simpl in Heq. lia.
  - injection Heq as -> Heq. f_equal. by apply IH.
Qed.

Lemma with_tmp_suffix_inj (p p' q : Path) :
  with_tmp_suffix p = Ok q → with_tmp_suffix p' = Ok q → p = p'.
Proof.
  intros (d & n & -> & ->)%with_tmp_suffix_inv (d' & n' & -> & Heq)%with_tmp_suffix_inv.
  apply app_inj_2 in Heq as [-> Heq]; [|done].
  injection Heq as Heq. apply append_inj_l in Heq. by subst.
Qed.

Lemma relative_to_inv (p base rel : Path) :
  relative_to p base = Ok rel → p = base ++ rel.
Proof.
  revert p. induction base as [|b base IH]; intros p.
  - destruct p; simpl; by intros [= ->].
  - destruct p as [|c p]; simpl; [done|]. case_decide; [|done]. subst.
    intros Hr. f_equal. by apply IH.
Qed.

Lemma relative_to_app (base rel : Path) : relative_to (base ++ rel) base = Ok rel.
Proof.
  induction base as [|b base IH]; simpl; [by destruct rel|]. by rewrite decide_True.
Qed.

(** ** Facts about the filesystem *)

Lemma lookup_node_ne (fs : FS) (p : Path) : p ≠ [] → lookup_node fs p = fs !! p.
Proof. by destruct p. Qed.

Lemma lookup_node_snoc (fs : FS) (d : Path) (c : string) :
  lookup_node fs (d ++ [c]) = fs !! (d ++ [c]).
Proof. apply lookup_node_ne. by destruct d. Qed.

Lemma evolves_refl W D d : evolves W D d d.
Proof. intros p. by left. Qed.

Lemma evolves_trans W D d1 d2 d3 :
  evolves W D d1 d2 → evolves W D d2 d3 → evolves W D d1 d3.
Proof.
  intros H12 H23 p.
  destruct (H12 p) as [E1|[(N1 & E1 & HD)|(N1 & [x E1] & HW)]],
           (H23 p) as [E2|[(N2 & E2 & HD')|(N2 & [y E2] & HW')]];
    try congruence;
    first [ left; congruence
          | right; left; split_and!; [congruence..|done]
          | right; right; split_and!; [congruence|rewrite ?E2; by eauto|done] ].
Qed.

Lemma evolves_mono (W W' D D' : Path → Prop) d d' :
  (∀ p, W p → W' p) → (∀ p, D p → D' p) → evolves W D d d' → evolves W' D' d d'.
Proof. intros HW HD H p. destruct (H p) as [?|[(?&?&?)|(?&?&?)]]; eauto 10. Qed.

Lemma evolves_file_at W D d d' p :
  evolves W D d d' → ¬ W p → file_at d' p = file_at d p.
Proof.
  intros H HW. unfold file_at. destruct p as [|c p]; [done|]. simpl.
  destruct (H (c :: p)) as [->|[(-> & -> & _)|(_ & _ & ?)]]; done.
Qed.

Lemma evolves_keeps W D d d' p n :
  evolves W D d d' → ¬ W p → d !! p = Some n → d' !! p = Some n.
Proof.
  intros H HW Hp. destruct (H p) as [->|[(? & _ & _)|(_ & _ & ?)]]; congruence.
Qed.

Lemma evolves_not_dir W D d d' p :
  evolves W D d d' → ¬ D p → d !! p ≠ Some Dir → d' !! p ≠ Some Dir.
Proof.
  intros H HD Hp. destruct (H p) as [->|[(_ & _ & ?)|(_ & [x ->] & _)]]; done.
Qed.

Lemma evolves_untouched W D d d' p :
  evolves W D d d' → ¬ W p → ¬ D p → d' !! p = d !! p.
Proof. intros H HW HD. destruct (H p) as [->|[(_ & _ & ?)|(_ & _ & ?)]]; done. Qed.

Lemma mkdir_from_evolves (fs fs' : FS) (done todo : Path) :
  mkdir_from fs done todo = Ok fs' →
  evolves (λ _, False) (λ p, p `prefix_of` done ++ todo) fs fs'.
Proof.
  revert fs done. induction todo as [|c todo IH]; intros fs done; simpl.
  - intros [= ->]. apply evolves_refl.
  - destruct (fs !! (done ++ [c])) as [[|x]|] eqn:Hq; [|done|].
    + intros Hm. apply IH in Hm. by rewrite <- app_assoc in Hm.
    + intros Hm. apply IH in Hm. rewrite <- app_assoc in Hm. simpl in Hm.
      intros p. destruct (decide (p = done ++ [c])) as [->|Hne].
      * right; left. split; [done|].
        destruct (Hm (done ++ [c])) as [E|[(N & _ & _)|(_ & _ & [])]].
        -- rewrite E, lookup_insert_eq. split; [done|].
           apply prefix_app, prefix_cons, prefix_nil.
        -- by rewrite lookup_insert_eq in N.
      * destruct (Hm p) as [E|[(N & E & HD)|(_ & _ & [])]].
        -- left. by rewrite E, lookup_insert_ne.
        -- right; left. by rewrite lookup_insert_ne in N.
Qed.

Lemma mkdir_from_dirs (fs fs' : FS) (done todo : Path) :
  mkdir_from fs done todo = Ok fs' →
  ∀ k, (k < length todo)%nat → fs' !! (done ++ take (S k) todo) = Some Dir.
Proof.
  revert fs done. induction todo as [|c todo IH]; intros fs done; simpl; [lia|].
  intros Hm k Hk.
  assert (∃ fs1, mkdir_from fs1 (done ++ [c]) todo = Ok fs' ∧ fs1 !! (done ++ [c]) = Some Dir)
    as (fs1 & Hm1 & Hq).
  { destruct (fs !! (done ++ [c])) as [[|x]|] eqn:Hq; [|done|].
    - by exists fs.
    - exists (<[done ++ [c] := Dir]> fs). by rewrite lookup_insert_eq. }
  destruct k as [|k].
  - simpl. rewrite take_0.
    eapply (evolves_keeps _ _ fs1); [by apply mkdir_from_evolves| |done]. tauto.
  - specialize (IH _ _ Hm1 k ltac:(lia)). by rewrite <- app_assoc in IH.
Qed.

Lemma mkdir_parents_evolves (fs fs' : FS) (p : Path) :
  mkdir_parents fs p = Ok fs' → evolves (λ _, False) (λ q, q `prefix_of` p) fs fs'.
Proof. apply mkdir_from_evolves. Qed.

Lemma mkdir_parents_is_dir (fs fs' : FS) (p q : Path) :
  mkdir_parents fs p = Ok fs' → q `prefix_of` p → is_dir fs' q = true.
Proof.
  intros Hm [r ->]. unfold is_dir. destruct q as [|c q _] using rev_ind; [done|].
  rewrite lookup_node_snoc.
  pose proof (mkdir_from_dirs _ _ _ _ Hm (length q) ltac:(rewrite !length_app; simpl; lia)) as Hd.
  simpl in Hd. rewrite take_app_length' in Hd; [by rewrite Hd|].
  rewrite length_app. simpl. lia.
Qed.

Lemma write_text_inv (fs fs' : FS) (p : Path) (data : string) :
  write_text fs p data = Ok fs' →
  fs' = <[p := File data]> fs ∧ fs !! p ≠ Some Dir ∧ p ≠ [] ∧ is_dir fs (parent p) = true.
Proof.
  unfold write_text, is_dir. destruct (lookup_node fs (parent p)) as [[|?]|]; [|done..].
  destruct p as [|c p]; [done|]. simpl.
  destruct (fs !! (c :: p)) as [[|?]|]; [done|..]; by intros [= <-].
Qed.

Lemma write_text_evolves (fs fs' : FS) (p : Path) (data : string) :
  write_text fs p data = Ok fs' → evolves (eq p) (λ _, False) fs fs'.
Proof.
  intros (-> & Hnd & _)%write_text_inv q. destruct (decide (p = q)) as [<-|Hne].
  - right; right. rewrite lookup_insert_eq. eauto.
  - left. by rewrite lookup_insert_ne.
Qed.

Lemma write_text_ok (fs : FS) (p : Path) (data : string) :
  is_dir fs (parent p) = true → is_dir fs p = false →
  write_text fs p data = Ok (<[p := File data]> fs).
Proof.
  unfold write_text, is_dir. destruct (lookup_node fs (parent p)) as [[|?]|]; [|done..].
  by destruct (lookup_node fs p) as [[|?]|].
Qed.

Lemma unlink_inv (fs fs' : FS) (p : Path) :
  unlink fs p = Ok fs' → fs' = delete p fs.
Proof. unfold unlink. destruct (lookup_node fs p) as [[|?]|]; by intros [= <-]. Qed.

(** ** Frame reasoning: a relation every step of a computation respects *)

Section Keeps.
Context (R : relation State) `{!PreOrder R}.

Lemma keeps_ret {A} (a : A) : keeps R (ret a).
Proof. intros s r s' [= _ <-]. reflexivity. Qed.

Lemma keeps_raise {A} e : keeps R (@raise A e).
Proof. intros s r s' [= _ <-]. reflexivity. Qed.

Lemma keeps_pure_result {A} (x : result A) : keeps R (pure_result x).
Proof. intros s r s' [= _ <-]. reflexivity. Qed.

Lemma keeps_reading {A} (f : FS → result A) : keeps R (reading f).
Proof. intros s r s' [= _ <-]. reflexivity. Qed.

Lemma keeps_gets {A} (f : State → A) : keeps R (gets f).
Proof. intros s r s' [= _ <-]. reflexivity. Qed.

Lemma keeps_bind {A B} (m : M A) (k : A → M B) :
  keeps R m → (∀ a, keeps R (k a)) → keeps R (bind m k).
Proof.
  intros Hm Hk s r s' [(a & s1 & H1 & H2)|(e & H1 & _)]%bind_inv.
  - transitivity s1; [by eapply Hm|by eapply Hk].
  - by eapply Hm.
Qed.

Lemma keeps_writing (f : FS → result FS) :
  (∀ s d, f (disk s) = Ok d → R s (set_disk d s)) → keeps R (writing f).
Proof.
  intros Hf s r s'. unfold writing. destruct (f (disk s)) eqn:Hd; intros [= _ <-].
  - by apply Hf.
  - reflexivity.
Qed.

Lemma keeps_modify (f : State → State) : (∀ s, R s (f s)) → keeps R (modify f).
Proof. intros Hf s r s' [= _ <-]. apply Hf. Qed.

Lemma keeps_try_except {A} (body : M A) (handler : exn → M A) :
  keeps R body → (∀ e, keeps R (handler e)) → keeps R (try_except body handler).
Proof.
  intros Hb Hh s r s'. unfold try_except.
  destruct (body s) as [[a|e] s1] eqn:H1.
  - intros [= _ <-]. by eapply Hb.
  - intros H2. transitivity s1; [by eapply Hb|by eapply Hh].
Qed.

Lemma keeps_try_finally {A} (body : M A) (final : M unit) :
  keeps R body → keeps R final → keeps R (try_finally body final).
Proof.
  intros Hb Hf s r s'. unfold try_finally.
  destruct (body s) as [r1 s1] eqn:H1. destruct (final s1) as [[[]|e] s2] eqn:H2;
    intros [= _ <-]; (transitivity s1; [by eapply Hb|by eapply Hf]).
Qed.

Lemma keeps_for_each {A} (l : list A) (body : A → M unit) :
  (∀ x, x ∈ l → keeps R (body x)) → keeps R (for_each l body).
Proof.
  induction l as [|x l IH]; intros Hb; simpl.
  - apply keeps_ret.
  - apply keeps_bind; [apply Hb; by left|]. intros _. apply IH.
    intros y Hy. apply Hb. by right.
Qed.

End Keeps.

Global Instance staged_preorder W D : PreOrder (staged W D).
Proof.
  split.
  - intros s. split_and!; [apply evolves_refl|done..].
  - intros s1 s2 s3 (E1 & S1 & C1 & I1) (E2 & S2 & C2 & I2).
    split_and!; [by eapply evolves_trans|congruence..|by etrans].
Qed.

Lemma staged_mono (W W' D D' : Path → Prop) s s' :
  (∀ p, W p → W' p) → (∀ p, D p → D' p) → staged W D s s' → staged W' D' s s'.
Proof. intros HW HD (E & ?). split; [by eapply evolves_mono|done]. Qed.

Lemma keeps_mono (R R' : relation State) {A} (m : M A) :
  (∀ s s', R s s' → R' s s') → keeps R m → keeps R' m.
Proof. intros HR Hm s r s' Hrun. by eapply HR, Hm. Qed.

Lemma prompt_inv (s s' : State) (r : result bool) :
  _prompt_for_confirmation s = (r, s') →
  (stdin s = [] ∧ r = Raise EOFError ∧ s' = s)
  ∨ (∃ line rest, stdin s = line :: rest ∧ r = Ok (confirms line) ∧ s' = set_stdin rest s).
Proof.
  unfold _prompt_for_confirmation, input, bind, ret.
  destruct (stdin s) as [|line rest] eqn:Hin; intros [= <- <-]; [left|right]; eauto.
Qed.

Lemma keeps_prompt W D : keeps (staged W D) _prompt_for_confirmation.
Proof.
  intros s r s' [(_ & _ & ->)|(line & rest & Hin & _ & ->)]%prompt_inv; [reflexivity|].
  split_and!; [apply evolves_refl|done..|]. simpl. rewrite Hin. by apply suffix_cons_r.
Qed.

Lemma keeps_mkdir target :
  keeps (staged (λ _, False) (λ q, q `prefix_of` parent target))
        (writing (λ fs, mkdir_parents fs (parent target))).
Proof.
  apply keeps_writing; [apply _|]. intros s d Hd.
  split_and!; [by apply mkdir_parents_evolves|done..].
Qed.

Lemma keeps_write_text tmp data :
  keeps (staged (eq tmp) (λ _, False)) (writing (λ fs, write_text fs tmp data)).
Proof.
  apply keeps_writing; [apply _|]. intros s d Hd.
  split_and!; [by eapply write_text_evolves|done..].
Qed.

(** What one staging step may do to the state, whatever its outcome. *)
Lemma sync_by_policy_frame source target tmp policy force :
  keeps (staged (eq tmp) (λ q, q `prefix_of` parent target))
        (_sync_by_policy source target tmp policy force).
Proof.
  set (R := staged (eq tmp) (λ q, q `prefix_of` parent target)).
  assert (keeps R (writing (λ fs, mkdir_parents fs (parent target)))) as Hmk.
  { eapply keeps_mono, keeps_mkdir. intros ??. apply staged_mono; naive_solver. }
  assert (∀ data, keeps R (writing (λ fs, write_text fs tmp data))) as Hwr.
  { intros data. eapply keeps_mono, keeps_write_text.
    intros ??. apply staged_mono; naive_solver. }
  assert (keeps R (if force then ret true else _prompt_for_confirmation)) as Hgo.
  { destruct force; [apply keeps_ret, _|apply keeps_prompt]. }
  unfold _sync_by_policy.
  repeat first
    [ apply keeps_bind; [apply _| |intros ?]
    | apply keeps_ret, _
    | apply keeps_reading, _
    | exact Hmk | apply Hwr | exact Hgo
    | match goal with |- keeps _ (match ?x with _ => _ end) => destruct x end ].
Qed.

Section Batch.
Context `{Runtime}.
Variable self : ConfigSyncer.

Lemma stage_all_frame cands force synced :
  keeps (staged (staging_path cands.*2) (on_target_path cands.*1.*2))
        (stage_all self cands force synced).
Proof.
  revert synced. induction cands as [|[[source target] tmp] cands IH]; intros synced; simpl.
  - apply keeps_ret, _.
  - apply keeps_bind; [apply _|apply keeps_pure_result, _|]. intros policy.
    apply keeps_bind; [apply _| |].
    + eapply keeps_mono, sync_by_policy_frame. intros s s'. apply staged_mono.
      * intros p <-. by left.
      * intros q Hq. exists target. split; [by left|done].
    + intros done. eapply keeps_mono, IH. intros s s'. apply staged_mono.
      * intros p Hp. by right.
      * intros q (t & Ht & Hq). exists t. split; [by right|done].
Qed.

Lemma remove_staging_file_ok tmp s :
  is_dir (disk s) tmp = false →
  remove_staging_file tmp s = (Ok tt, set_disk (delete tmp (disk s)) s).
Proof.
  intros Hnd. unfold remove_staging_file, bind, reading, writing, ret, exists_, unlink.
  unfold is_dir in Hnd. destruct tmp as [|c tmp]; [done|]. simpl in *.
  destruct (disk s !! (c :: tmp)) as [[|x]|] eqn:Hl; [done| |].
  - simpl. by rewrite Hl.
  - rewrite delete_id by done. by destruct s.
Qed.

(** The [finally] clause removes every staging file, provided none of the
    staging paths is a directory, and touches nothing else. *)
Lemma cleanup_ok tmps s :
  (∀ tmp, tmp ∈ tmps → is_dir (disk s) tmp = false) →
  ∃ s', cleanup tmps s = (Ok tt, s')
      ∧ (∀ p, disk s' !! p = if decide (p ∈ tmps) then None else disk s !! p)
      ∧ sync_state s' = sync_state s ∧ stdin s' = stdin s ∧ clock s' = clock s.
Proof.
  revert s. induction tmps as [|tmp tmps IH]; intros s Hnd.
  - exists s. split; [done|]. split; [|done]. intros p. by rewrite decide_False by set_solver.
  - assert (is_dir (disk s) tmp = false) as Htmp by (apply Hnd; by left).
    destruct (IH (set_disk (delete tmp (disk s)) s)) as (s' & Hrun & Hlk & Hst & Hin & Hck).
    { intros t Ht. simpl. specialize (Hnd t ltac:(by right)).
      unfold is_dir in *. destruct t as [|c t]; [done|]. simpl in *.
      destruct (decide (tmp = c :: t)) as [->|Hn].
      - by rewrite lookup_delete_eq.
      - by rewrite lookup_delete_ne. }
    exists s'. split_and!; [|intros p|done..].
    + unfold cleanup in *. simpl.
      by rewrite (bind_ok _ _ _ _ _ (remove_staging_file_ok _ _ Htmp)).
    + rewrite Hlk. simpl. destruct (decide (p = tmp)) as [->|Hp].
      * rewrite lookup_delete_eq. repeat case_decide; try done; exfalso; set_solver.
      * rewrite lookup_delete_ne by done.
        repeat case_decide; try done; exfalso; set_solver.
Qed.

Lemma stage_all_raise_sync source_files force s e s1 targets tmps :
  map_result (target_of self) source_files = Ok targets →
  map_result with_tmp_suffix targets = Ok tmps →
  stage_all self (zip (zip source_files targets) tmps) force (none_synced source_files) s
    = (Raise e, s1) →
  sync self source_files force s =
    try_finally (ret 1%Z) (cleanup tmps) s1.
Proof.
  intros Ht Htmp Hst. unfold sync, pure_result, bind at 1. rewrite Ht.
  unfold bind at 1. rewrite Htmp. unfold try_finally, try_except, sync_body.
  by rewrite (bind_raise _ _ _ _ _ Hst).
Qed.

Lemma is_dir_false_lookup (fs : FS) (p : Path) :
  is_dir fs p = false ↔ p ≠ [] ∧ fs !! p ≠ Some Dir.
Proof.
  unfold is_dir. destruct p as [|c p]; simpl; [naive_solver|].
  destruct (fs !! (c :: p)) as [[|x]|]; naive_solver.
Qed.

Lemma zip_staging_path (sources targets tmps : list Path) p :
  staging_path (zip (zip sources targets) tmps).*2 p → p ∈ tmps.
Proof.
  unfold staging_path. intros ([[a b] c] & -> & Hin)%list_elem_of_fmap.
  by apply elem_of_zip_r in Hin.
Qed.

Lemma zip_on_target_path (sources targets tmps : list Path) q :
  on_target_path (zip (zip sources targets) tmps).*1.*2 q → on_target_path targets q.
Proof.
  intros (t & Ht & Hq). exists t. split; [|done].
  apply list_elem_of_fmap in Ht as ([a b] & -> & Hin).
  apply list_elem_of_fmap in Hin as ([[a' b'] c] & [= -> ->] & Hin).
  by apply elem_of_zip_l, elem_of_zip_r in Hin.
Qed.


End Batch.

Lemma writing_inv (f : FS → result FS) s r s' :
  writing f s = (r, s') →
  (∃ d, f (disk s) = Ok d ∧ r = Ok tt ∧ s' = set_disk d s)
  ∨ (∃ e, f (disk s) = Raise e ∧ r = Raise e ∧ s' = s).
Proof. unfold writing. destruct (f (disk s)); intros [= <- <-]; eauto. Qed.

Lemma reading_inv {A} (f : FS → result A) s r s' :
  reading f s = (r, s') → r = f (disk s) ∧ s' = s.
Proof. by intros [= <- <-]. Qed.

Lemma go_inv (force : bool) s r s' :
  (if force then ret true else _prompt_for_confirmation) s = (r, s') →
  (force = true ∧ r = Ok true ∧ s' = s)
  ∨ (force = false ∧ stdin s = [] ∧ r = Raise EOFError ∧ s' = s)
  ∨ (force = false ∧ ∃ line rest, stdin s = line :: rest ∧ r = Ok (confirms line)
                                  ∧ s' = set_stdin rest s).
Proof.
  destruct force.
  - intros [= <- <-]. by left.
  - intros [(?&?&?)|(line&rest&?&?&?)]%prompt_inv; right; [left|right]; eauto 10.
Qed.

(** The part of [_sync_by_policy] after the test of [target_file.exists()],
    which both branches share: ask (unless forced), then write. *)
Lemma confirmed_branch_returns (rest : M unit) (force : bool) s b s' :
  (∀ s1 s2 r, rest s1 = (r, s2) → stdin s2 = stdin s1) →
  bind (if force then ret true else _prompt_for_confirmation)
       (λ go : bool, if negb go then ret false else bind rest (λ _, ret true)) s = (Ok b, s') →
  ((force = true ∧ b = true ∧ stdin s' = stdin s)
   ∨ (force = false ∧ ∃ line, stdin s = line :: stdin s' ∧ b = confirms line))
  ∧ (b = false → disk s' = disk s).
Proof.
  intros Hrest [(go & s1 & Hgo & Hk)|(? & _ & ?)]%bind_inv; [|done].
  apply go_inv in Hgo
    as [(-> & [= ->] & ->)|[(_ & _ & ? & _)|(-> & line & tail & Hin & [= ->] & ->)]];
    [|done|].
  - simpl in Hk. apply bind_inv in Hk as [([] & s2 & Hr & [= <- <-])|(? & _ & ?)]; [|done].
    split; [|done]. left. split_and!; [done..|]. by apply Hrest in Hr.
  - destruct (confirms line) eqn:Hc; simpl in Hk.
    + apply bind_inv in Hk as [([] & s2 & Hr & [= <- <-])|(? & _ & ?)]; [|done].
      split; [|done]. right. split; [done|]. exists line.
      apply Hrest in Hr. simpl in Hr. by rewrite Hr, Hin.
    + injection Hk as <- <-. split; [|done]. right. split; [done|]. by exists line.
Qed.

Lemma write_text_keeps_stdin tmp data s r s' :
  writing (λ fs, write_text fs tmp data) s = (r, s') → stdin s' = stdin s.
Proof. by intros [(? & _ & _ & ->)|(? & _ & _ & ->)]%writing_inv. Qed.

(** A staging step that returns at all has created the parent directories
    of its target and decided on the operator's word (or on [force]). *)
Lemma sync_by_policy_returns source target tmp policy force s b s' :
  _sync_by_policy source target tmp policy force s = (Ok b, s') →
  ∃ d, mkdir_parents (disk s) (parent target) = Ok d
     ∧ ((force = true ∧ b = true ∧ stdin s' = stdin s)
        ∨ (force = false ∧ ∃ line, stdin s = line :: stdin s' ∧ b = confirms line))
     ∧ (b = false → disk s' = d).
Proof.
  unfold _sync_by_policy.
  intros [([] & s1 & Hmk & Hrun)|(? & _ & ?)]%bind_inv; [|done].
  apply writing_inv in Hmk as [(d & Hd & _ & ->)|(? & _ & ? & _)]; [|done].
  exists d. split; [done|].
  apply bind_inv in Hrun as [(text & s1 & [_ ->]%reading_inv & Hrun)|(? & _ & ?)]; [|done].
  apply bind_inv in Hrun as [(ex & s1 & [_ ->]%reading_inv & Hrun)|(? & _ & ?)]; [|done].
  destruct ex.
  - apply confirmed_branch_returns in Hrun; [exact Hrun|].
    intros s1 s2 r. destruct policy.
    + intros [(? & ? & [_ ->]%reading_inv & Hw)|(? & [_ ->]%reading_inv & _)]%bind_inv; [|done].
      by eapply write_text_keeps_stdin.
    + apply write_text_keeps_stdin.
    + intros [(? & ? & [_ ->]%reading_inv & Hw)|(? & [_ ->]%reading_inv & _)]%bind_inv; [|done].
      case_match; [by eapply write_text_keeps_stdin|by injection Hw as _ <-].
  - apply confirmed_branch_returns in Hrun; [exact Hrun|].
    intros s1 s2 r. apply write_text_keeps_stdin.
Qed.

(** C10 (directories are created before the prompt).  Whenever the merge of
    a target whose parent directory does not exist returns [False], the
    operator was asked (so [force] was off) and declined, one line of input
    was consumed, and the disk afterwards is exactly the disk before with
    [target.parent.mkdir(parents=True, exist_ok=True)] applied: the parent
    directory is there although nothing was synced. *)
Theorem decline_still_creates_parents source target tmp policy force s s' :
  exists_ (disk s) (parent target) = false →
  _sync_by_policy source target tmp policy force s = (Ok false, s') →
  mkdir_parents (disk s) (parent target) = Ok (disk s')
  ∧ is_dir (disk s') (parent target) = true
  ∧ force = false
  ∧ ∃ line, stdin s = line :: stdin s' ∧ confirms line = false.
Proof.
  intros _ Hrun. apply sync_by_policy_returns in Hrun as (d & Hd & Hgo & Hdisk).
  rewrite Hdisk by done. split; [done|]. split; [by eapply mkdir_parents_is_dir|].
  destruct Hgo as [(_ & ? & _)|(-> & line & Hin & Hc)]; [done|]. eauto.
Qed.

Lemma elem_of_parents (p q : Path) :
  q ∈ parents p ↔ ∃ k, (k < length p)%nat ∧ q = take k p.
Proof.
  unfold parents. rewrite list_elem_of_fmap. split.
  - intros (k & -> & Hk). exists k. split; [|done].
    apply elem_of_reverse, elem_of_seq in Hk. lia.
  - intros (k & Hk & ->). exists k. split; [done|].
    apply elem_of_reverse, elem_of_seq. lia.
Qed.

Lemma prefix_parent_in_parents (p q : Path) :
  p ≠ [] → q `prefix_of` parent p → q ∈ parents p.
Proof.
  intros Hne [r Hr]. destruct p as [|c p _] using rev_ind; [done|].
  unfold parent in Hr. rewrite removelast_last in Hr. subst p.
  apply elem_of_parents. exists (length q). split.
  - rewrite !length_app. simpl. lia.
  - rewrite <- !app_assoc. by rewrite take_app_length.
Qed.

(** With every ancestor in place, [mkdir(parents=True, exist_ok=True)]
    changes nothing. *)
Lemma mkdir_from_noop (fs : FS) (base todo : Path) :
  (∀ k, (k < length todo)%nat → fs !! (base ++ take (S k) todo) = Some Dir) →
  mkdir_from fs base todo = Ok fs.
Proof.
  revert base. induction todo as [|c todo IH]; intros base Hd; simpl; [done|].
  pose proof (Hd 0%nat ltac:(simpl; lia)) as H0. simpl in H0. rewrite take_0 in H0.
  rewrite H0. apply IH. intros k Hk.
  specialize (Hd (S k) ltac:(simpl; lia)). by rewrite <- app_assoc.
Qed.

Lemma is_dir_true_lookup (fs : FS) (q : Path) :
  is_dir fs q = true → q ≠ [] → fs !! q = Some Dir.
Proof.
  unfold is_dir. destruct q as [|c q]; [done|]. simpl.
  by destruct (fs !! (c :: q)) as [[|?]|].
Qed.

Lemma mkdir_parents_noop (fs : FS) (target : Path) :
  Forall (λ q, is_dir fs q = true) (parents target) →
  mkdir_parents fs (parent target) = Ok fs.
Proof.
  intros Hall. apply mkdir_from_noop. intros k Hk. simpl.
  destruct target as [|c t _] using rev_ind; [simpl in Hk; lia|].
  unfold parent in *. rewrite removelast_last in *.
  apply is_dir_true_lookup.
  - rewrite Forall_forall in Hall. apply Hall, elem_of_parents.
    exists (S k). rewrite length_app. simpl. split; [lia|].
    by rewrite take_app_le by lia.
  - destruct t; simpl in *; [lia|done].
Qed.

Lemma set_disk_same s : set_disk (disk s) s = s.
Proof. by destruct s. Qed.

Lemma mkdir_step_noop target s :
  Forall (λ q, is_dir (disk s) q = true) (parents target) →
  writing (λ fs, mkdir_parents fs (parent target)) s = (Ok tt, s).
Proof. intros Hall. unfold writing. by rewrite mkdir_parents_noop, set_disk_same. Qed.

Lemma is_dir_parents_tmp (fs : FS) (target tmp : Path) :
  with_tmp_suffix target = Ok tmp →
  Forall (λ q, is_dir fs q = true) (parents target) →
  is_dir fs (parent tmp) = true.
Proof.
  intros Htmp Hall. rewrite (with_tmp_suffix_parent _ _ Htmp).
  rewrite Forall_forall in Hall. apply Hall.
  apply prefix_parent_in_parents; [|done].
  apply with_tmp_suffix_inv in Htmp as (d & n & -> & _). by destruct d.
Qed.

Lemma granted_run (force : bool) s :
  (force = true ∨ ∃ line, head (stdin s) = Some line ∧ confirms line = true) →
  ∃ s', (if force then ret true else _prompt_for_confirmation) s = (Ok true, s')
      ∧ disk s' = disk s ∧ sync_state s' = sync_state s ∧ clock s' = clock s.
Proof.
  intros Hgo. destruct force.
  - by exists s.
  - destruct Hgo as [?|(line & Hh & Hc)]; [done|].
    destruct (stdin s) as [|l rest] eqn:Hin; [done|]. injection Hh as ->.
    exists (set_stdin rest s). unfold _prompt_for_confirmation, input, bind, ret.
    by rewrite Hin, Hc.
Qed.

(** C7 (append merge content).  For an existing target that reads as [A] and
    a source that reads as [B], under [APPEND] with confirmation granted (by
    [force] or by the operator's answer), the merge returns [True] and its
    one effect on the disk is that the staging file holds [A], two newlines,
    and [B].  The premises on the directories say that the target sits in
    directories and that the staging path is not one. *)
Theorem append_stages_concatenation source target tmp force s A B :
  read_text (disk s) target = Ok A →
  read_text (disk s) source = Ok B →
  Forall (λ q, is_dir (disk s) q = true) (parents target) →
  with_tmp_suffix target = Ok tmp →
  is_dir (disk s) tmp = false →
  (force = true ∨ ∃ line, head (stdin s) = Some line ∧ confirms line = true) →
  ∃ s', _sync_by_policy source target tmp APPEND force s = (Ok true, s')
      ∧ disk s' = <[tmp := File (A +:+ nl +:+ nl +:+ B)]> (disk s).
Proof.
  intros HA HB Hanc Htmp Hnd Hgo.
  destruct (granted_run force s Hgo) as (s1 & Hrun & Hd1 & _).
  exists (set_disk (<[tmp := File (A +:+ nl +:+ nl +:+ B)]> (disk s)) s1). split; [|done].
  unfold _sync_by_policy.
  rewrite (bind_ok _ _ _ _ _ (mkdir_step_noop _ _ Hanc)).
  erewrite bind_ok; [|unfold reading; by rewrite HB].
  erewrite bind_ok; [|unfold reading; done].
  assert (exists_ (disk s) target = true) as ->.
  { unfold read_text, read_bytes, exists_ in *. by destruct (lookup_node (disk s) target). }
  erewrite bind_ok; [|exact Hrun]. simpl.
  erewrite bind_ok; [done|].
  erewrite bind_ok; [|unfold reading; by rewrite Hd1, HA].
  unfold writing. rewrite Hd1, write_text_ok; [done| |done].
  by eapply is_dir_parents_tmp.
Qed.

Section Detector.
Context `{Runtime}.
Variable self : ConfigSyncer.

(** C8 (target missing: the hash stays).  For a source that no pattern
    excludes, with a state entry whose stored hash is the digest of its
    current content, and whose target path does not exist, the detector
    answers [False] (needs sync) and changes nothing but the clock and the
    entry's timestamp and reason: the hash field, and every other field, is
    as stored. *)
Theorem target_missing_keeps_hash source rel s e h b :
  relative_to source (configs_dir_path self) = Ok rel →
  excluded_by_pattern rel (exclude_patterns self) = Ok false →
  sync_state s !! source = Some e →
  e !! "hash" = Some h →
  read_bytes (disk s) source = Ok b →
  md5_hexdigest b = h →
  exists_ (disk s) (joinpath (target_dir_path self) rel) = false →
  let e' := <["sync reason" := "Target file dose not exist or is deleted since last sync"]>
              (<["last sync timestamp" := isoformat (clock s)]> e) in
  _validate_exclude self source s
    = (Ok false, mkState (disk s) (stdin s) (S (clock s)) (<[source := e']> (sync_state s)))
  ∧ e' !! "hash" = Some h
  ∧ (∀ k, k ≠ "last sync timestamp" → k ≠ "sync reason" → e' !! k = e !! k).
Proof.
  intros Hrel Hexcl He Hh Hb Hmd Hmiss e'. split_and!.
  - unfold _validate_exclude.
    cbv [bind pure_result now_isoformat gets _compute_file_hash reading ret
         set_entry_field modify].
    rewrite Hrel, Hexcl. simpl. rewrite Hb. simpl. rewrite He. simpl.
    rewrite Hh, Hmd, !bool_decide_true by eauto. simpl.
    rewrite Hmiss. simpl. rewrite He. simpl. rewrite lookup_insert_eq.
    unfold set_sync_state. simpl. by rewrite insert_insert_eq.
  - subst e'. by rewrite !lookup_insert_ne.
  - intros k Hk1 Hk2. subst e'. by rewrite !lookup_insert_ne.
Qed.

End Detector.

Lemma map_result_length {A B} (f : A → result B) (l : list A) (k : list B) :
  map_result f l = Ok k → length k = length l.
Proof.
  revert k. induction l as [|x l IH]; intros k; simpl.
  - by intros [= <-].
  - destruct (f x) as [y|]; [|done]. simpl.
    destruct (map_result f l) as [ys|]; [|done]. simpl. intros [= <-].
    simpl. f_equal. by apply IH.
Qed.

Lemma map_result_lookup {A B} (f : A → result B) (l : list A) (k : list B) i x :
  map_result f l = Ok k → l !! i = Some x → ∃ y, k !! i = Some y ∧ f x = Ok y.
Proof.
  revert k i. induction l as [|a l IH]; intros k i; simpl; [done|].
  destruct (f a) as [y|] eqn:Hy; [|done]. simpl.
  destruct (map_result f l) as [ys|]; [|done]. simpl. intros [= <-].
  destruct i as [|i]; simpl.
  - intros [= <-]. eauto.
  - intros Hx. by apply IH.
Qed.

Lemma candidates_sources (sources targets tmps : list Path) :
  length targets = length sources → length tmps = length targets →
  (zip (zip sources targets) tmps).*1.*1 = sources.
Proof.
  intros H1 H2. rewrite fst_zip by (rewrite length_zip; lia). apply fst_zip. lia.
Qed.

Lemma candidates_tmps (sources targets tmps : list Path) :
  length targets = length sources → length tmps = length targets →
  (zip (zip sources targets) tmps).*2 = tmps.
Proof. intros H1 H2. apply snd_zip. rewrite length_zip. lia. Qed.

Lemma candidates_targets (sources targets tmps : list Path) :
  length targets = length sources → length tmps = length targets →
  (zip (zip sources targets) tmps).*1.*2 = targets.
Proof.
  intros H1 H2. rewrite fst_zip by (rewrite length_zip; lia). apply snd_zip. lia.
Qed.

Section Batch.
Context `{Runtime}.
Variable self : ConfigSyncer.

Lemma load_sync_state_inv s r s' :
  _load_sync_state self s = (r, s') → s' = s.
Proof.
  unfold _load_sync_state.
  intros [(present & ? & [_ ->]%reading_inv & Hk)|(? & [_ ->]%reading_inv & _)]%bind_inv;
    [|done].
  destruct (negb present); [by injection Hk|].
  apply bind_inv in Hk as [(text & ? & [_ ->]%reading_inv & Hk)|(? & [_ ->]%reading_inv & _)];
    [|done].
  destruct (json_load text); by injection Hk.
Qed.

(** What a run of [sync] that returns 0 went through. *)
Lemma sync_success_inv source_files force s s' :
  sync self source_files force s = (Ok 0%Z, s') →
  ∃ targets tmps synced s1 s2 updated on_disk d3,
    map_result (target_of self) source_files = Ok targets
    ∧ map_result with_tmp_suffix targets = Ok tmps
    ∧ stage_all self (zip (zip source_files targets) tmps) force (none_synced source_files) s
        = (Ok synced, s1)
    ∧ promote_all (zip (zip source_files targets) tmps) s1 = (Ok tt, s2)
    ∧ updated_sync_states (sync_state s2) synced source_files = Ok updated
    ∧ _load_sync_state self s2 = (Ok on_disk, s2)
    ∧ write_text (disk s2) (state_file_path self) (json_dump (updated ∪ on_disk)) = Ok d3
    ∧ cleanup tmps (mkState d3 (stdin s2) (clock s2) (updated ∪ on_disk)) = (Ok tt, s').
Proof.
  unfold sync, pure_result. unfold bind at 1.
  destruct (map_result (target_of self) source_files) as [targets|] eqn:Ht; [|done].
  unfold bind at 1.
  destruct (map_result with_tmp_suffix targets) as [tmps|] eqn:Htmp; [|done].
  unfold try_finally, try_except.
  destruct (sync_body _ _ _ _ _) as [[z|e] sb] eqn:Hbody.
  2:{ unfold ret. destruct (cleanup _ _) as [[|] ?]; intros [= ?]. }
  destruct (cleanup tmps sb) as [[[]|] sc] eqn:Hclean; [|done]. intros [= -> ->].
  unfold sync_body in Hbody.
  apply bind_inv in Hbody as [(synced & s1 & Hstage & Hbody)|(? & _ & ?)]; [|done].
  apply bind_inv in Hbody as [([] & s2 & Hprom & Hbody)|(? & _ & ?)]; [|done].
  apply bind_inv in Hbody as [(mem & ? & [= <- <-] & Hbody)|(? & _ & ?)]; [|done].
  apply bind_inv in Hbody as [(updated & ? & Hupd & Hbody)|(? & _ & ?)]; [|done].
  unfold pure_result in Hupd. injection Hupd as Hupd <-.
  apply bind_inv in Hbody as [(on_disk & s3 & Hload & Hbody)|(? & _ & ?)]; [|done].
  pose proof (load_sync_state_inv _ _ _ Hload) as ->.
  apply bind_inv in Hbody as [([] & ? & [= <-] & Hbody)|(? & _ & ?)]; [|done].
  apply bind_inv in Hbody as [([] & s4 & Hsave & [= <-])|(? & _ & ?)]; [|done].
  unfold _save_sync_state in Hsave.
  apply bind_inv in Hsave as [(m & ? & [= <- <-] & Hsave)|(? & _ & ?)]; [|done].
  apply writing_inv in Hsave as [(d3 & Hd3 & _ & ->)|(? & _ & ? & _)]; [|done].
  simpl in *. exists targets, tmps, synced, s1, s2, updated, on_disk, d3.
  split_and!; done.
Qed.

Lemma updated_sync_states_lookup mem synced source_files updated g :
  updated_sync_states mem synced source_files = Ok updated →
  updated !! g = if decide (g ∈ source_files ∧ synced !! g = Some true)
                 then mem !! g else None.
Proof.
  revert updated. induction source_files as [|f rest IH]; intros updated Hu; simpl in Hu.
  - injection Hu as <-. rewrite lookup_empty. case_decide as Hd; [|done].
    destruct Hd as [Hd _]. by apply elem_of_nil in Hd.
  - destruct (synced !! f) as [[|]|] eqn:Hf; [| |done].
    + destruct (mem !! f) as [e|] eqn:He; [|done].
      destruct (updated_sync_states mem synced rest) as [u|]; [|done]. simpl in Hu.
      injection Hu as <-. destruct (decide (g = f)) as [->|Hne].
      * rewrite lookup_insert_eq, decide_True; [done|]. split; [by left|done].
      * rewrite lookup_insert_ne by done. rewrite (IH u eq_refl).
        repeat case_decide; try done; exfalso; set_solver.
    + rewrite (IH _ Hu).
      repeat case_decide; try done; exfalso; set_solver.
Qed.

(** A file that ends up recorded as synced was confirmed at one of its
    prompts, or was recorded so before. *)
Lemma stage_all_confirmed cands synced s synced' s1 g :
  stage_all self cands false synced s = (Ok synced', s1) →
  synced' !! g = Some true →
  synced !! g = Some true
  ∨ ∃ i line, cands.*1.*1 !! i = Some g ∧ stdin s !! i = Some line ∧ confirms line = true.
Proof.
  revert synced s. induction cands as [|[[source target] tmp] cands IH]; intros synced s; simpl.
  - intros [= <- <-]. by left.
  - intros [(policy & ? & [= _ <-] & Hk)|(? & _ & ?)]%bind_inv; [|done].
    apply bind_inv in Hk as [(b & s0 & Hstep & Hk)|(? & _ & ?)]; [|done].
    apply sync_by_policy_returns in Hstep as (d & _ & [(? & _)|(_ & line & Hin & ->)] & _);
      [done|].
    intros Hg. destruct (IH _ _ Hk Hg) as [Hl|(i & l & Hi & Hline & Hc)].
    + destruct (decide (source = g)) as [->|Hne].
      * rewrite lookup_insert_eq in Hl. injection Hl as Hl.
        right. exists 0%nat, line. by rewrite Hin.
      * rewrite lookup_insert_ne in Hl by done. by left.
    + right. exists (S i), l. by rewrite Hin.
Qed.

Lemma none_synced_lookup source_files g :
  none_synced source_files !! g = if decide (g ∈ source_files) then Some false else None.
Proof.
  unfold none_synced. induction source_files as [|f rest IH].
  - rewrite fmap_nil, list_to_map_nil, lookup_empty.
    case_decide as Hd; [by apply elem_of_nil in Hd|done].
  - rewrite fmap_cons, list_to_map_cons. destruct (decide (f = g)) as [->|Hne].
    + rewrite lookup_insert_eq, decide_True; [done|by left].
    + rewrite lookup_insert_ne by done. rewrite IH.
      repeat case_decide; try done; exfalso; set_solver.
Qed.

Lemma stage_all_recorded cands force synced s synced' s1 g b :
  stage_all self cands force synced s = (Ok synced', s1) →
  synced !! g = Some b → is_Some (synced' !! g).
Proof.
  revert synced s b. induction cands as [|[[source target] tmp] cands IH]; intros synced s b; simpl.
  - intros [= <- <-] Hg. eauto.
  - intros [(policy & ? & [= _ <-] & Hk)|(? & _ & ?)]%bind_inv; [|done].
    apply bind_inv in Hk as [(b' & s0 & Hstep & Hk)|(? & _ & ?)]; [|done].
    intros Hg. destruct (decide (source = g)) as [->|Hne].
    + eapply IH; [done|]. by rewrite lookup_insert_eq.
    + eapply IH; [done|]. by rewrite lookup_insert_ne.
Qed.

Global Instance same_session_preorder : PreOrder same_session.
Proof.
  split.
  - by intros s.
  - intros s1 s2 s3 (?&?&?) (?&?&?). split_and!; congruence.
Qed.

Lemma promote_all_same_session cands : keeps same_session (promote_all cands).
Proof.
  apply keeps_for_each; [apply _|]. intros [[source target] tmp] _. unfold promote.
  apply keeps_bind; [apply _|apply keeps_reading, _|]. intros staged.
  destruct staged; [|apply keeps_ret, _]. apply keeps_writing; [apply _|]. by intros s d _.
Qed.

Global Instance removes_preorder W : PreOrder (removes W).
Proof.
  split.
  - intros s. split; [reflexivity|]. intros p. by left.
  - intros s1 s2 s3 [S1 D1] [S2 D2]. split; [by etrans|]. intros p.
    destruct (D1 p) as [E1|[? E1]], (D2 p) as [E2|[? E2]]; [left; congruence|right..];
      split; try done; congruence.
Qed.

Lemma cleanup_removes tmps : keeps (removes (λ p, p ∈ tmps)) (cleanup tmps).
Proof.
  apply keeps_for_each; [apply _|]. intros tmp Hin. unfold remove_staging_file.
  apply keeps_bind; [apply _|apply keeps_reading, _|]. intros left_over.
  destruct left_over; [|apply keeps_ret, _]. apply keeps_writing; [apply _|].
  intros s d ->%unlink_inv. split; [done|]. intros p. simpl.
  destruct (decide (p = tmp)) as [->|Hne].
  - right. by rewrite lookup_delete_eq.
  - left. by rewrite lookup_delete_ne.
Qed.


End Batch.

Lemma file_at_lookup (fs : FS) (p : Path) (c : string) :
  file_at fs p = Some c ↔ p ≠ [] ∧ fs !! p = Some (File c).
Proof.
  unfold file_at. destruct p as [|x p]; simpl; [naive_solver|].
  destruct (fs !! (x :: p)) as [[|?]|]; naive_solver.
Qed.

Lemma staged_trans W D s1 s2 s3 :
  staged W D s1 s2 → staged W D s2 s3 → staged W D s1 s3.
Proof. apply (@transitivity _ _ (@PreOrder_Transitive _ _ (staged_preorder W D))). Qed.

Lemma staged_refl W D s : staged W D s s.
Proof. apply (@reflexivity _ _ (@PreOrder_Reflexive _ _ (staged_preorder W D))). Qed.

Lemma go_keeps_disk (force : bool) s r s' :
  (if force then ret true else _prompt_for_confirmation) s = (r, s') →
  disk s' = disk s ∧ staged (λ _, False) (λ _, False) s s'.
Proof.
  intros Hgo. split.
  - apply go_inv in Hgo as [(_ & _ & ->)|[(_ & _ & _ & ->)|(_ & ? & ? & _ & _ & ->)]]; done.
  - destruct force; [injection Hgo as _ <-; apply staged_refl|exact (keeps_prompt _ _ _ _ _ Hgo)].
Qed.

(** The already-prepended case: with the directive on the second line of the
    target, a staging step under [PREPEND_SOURCE_STATEMENT] writes nothing,
    whatever its outcome. *)
Lemma prepend_noop_frame source target tmp force c s r s' :
  file_at (disk s) target = Some c →
  split_lines (universal_newlines c) !! 1%nat = Some (expected_statement source) →
  _sync_by_policy source target tmp PREPEND_SOURCE_STATEMENT force s = (r, s') →
  staged (λ _, False) (λ q, q `prefix_of` parent target) s s'.
Proof.
  intros Hc Hline. unfold _sync_by_policy.
  intros [([] & s1 & Hmk & Hrun)|(? & Hmk & _)]%bind_inv; [|exact (keeps_mkdir target _ _ _ Hmk)].
  pose proof (keeps_mkdir target _ _ _ Hmk) as Hs1. eapply staged_trans; [exact Hs1|].
  assert (file_at (disk s1) target = Some c) as Hc1.
  { destruct Hs1 as (Hev & _). rewrite (evolves_file_at _ _ _ _ _ Hev); [done|tauto]. }
  clear Hmk Hs1 Hc.
  apply bind_inv in Hrun as [(text & ? & [_ ->]%reading_inv & Hrun)|(? & [_ ->]%reading_inv & _)];
    [|apply staged_refl].
  apply bind_inv in Hrun as [(ex & ? & [Hex ->]%reading_inv & Hrun)|(? & [_ ->]%reading_inv & _)];
    [|apply staged_refl].
  assert (ex = true) as ->.
  { injection Hex as ->. unfold exists_, file_at in *.
    by destruct (lookup_node (disk s1) target). }
  apply bind_inv in Hrun as [(go & s2 & Hgo & Hrun)|(? & Hgo & _)].
  2:{ apply go_keeps_disk in Hgo as [_ Hst]. eapply staged_mono, Hst; naive_solver. }
  apply go_keeps_disk in Hgo as [Hd Hst].
  eapply staged_trans; [eapply staged_mono, Hst; naive_solver|].
  destruct go; simpl in Hrun; [|injection Hrun as _ <-; apply staged_refl].
  unfold bind, reading, readlines, read_text, read_bytes in Hrun.
  rewrite Hd in Hrun. unfold file_at in Hc1.
  destruct (lookup_node (disk s1) target) as [[|c']|]; [done| |done].
  injection Hc1 as ->. simpl in Hrun. rewrite Hline in Hrun.
  rewrite bool_decide_true in Hrun by done.
  destruct (split_lines (universal_newlines c)) as [|l1 [|l2 ls]]; [done..|].
  simpl in Hrun. injection Hrun as _ <-. apply staged_refl.
Qed.

Section Batch.
Context `{Runtime}.
Variable self : ConfigSyncer.

Lemma target_of_inj f g t :
  target_of self f = Ok t → target_of self g = Ok t → f = g.
Proof.
  unfold target_of, joinpath.
  destruct (relative_to f _) as [rf|] eqn:Hf; [|done].
  destruct (relative_to g _) as [rg|] eqn:Hg; [|done]. simpl.
  intros [= <-] [= Heq%app_inv_head].
  apply relative_to_inv in Hf, Hg. congruence.
Qed.

(** Staging a batch leaves an already-prepended target and its free staging
    path as they are, as long as no staging path lies on a target's path. *)
Lemma stage_all_noop_target cands force synced s r s1 f t tmp c :
  (∀ g t' tmp', (g, t', tmp') ∈ cands →
     target_of self g = Ok t' ∧ with_tmp_suffix t' = Ok tmp') →
  (∀ tmp', tmp' ∈ cands.*2 → ¬ tmp' `prefix_of` t) →
  (∀ t', t' ∈ cands.*1.*2 → ¬ tmp `prefix_of` t') →
  policy_of self f = Ok PREPEND_SOURCE_STATEMENT →
  target_of self f = Ok t →
  with_tmp_suffix t = Ok tmp →
  split_lines (universal_newlines c) !! 1%nat = Some (expected_statement f) →
  file_at (disk s) t = Some c →
  disk s !! tmp = None →
  stage_all self cands force synced s = (r, s1) →
  file_at (disk s1) t = Some c ∧ disk s1 !! tmp = None.
Proof.
  intros Hwf Hapart1 Hapart2 Hpol Ht Htmp Hline.
  revert synced s. induction cands as [|[[g t'] tmp'] cands IH]; intros synced s Hc Hfree; simpl.
  - by intros [= _ <-].
  - destruct (Hwf g t' tmp' ltac:(by left)) as [Hgt Hgtmp].
    assert (∀ s0 r0, _sync_by_policy g t' tmp' (default OVERWRITE
              (match policy_of self g with Ok p => Some p | _ => None end)) force s = (r0, s0) →
            policy_of self g ≠ Raise ValueError →
            file_at (disk s0) t = Some c ∧ disk s0 !! tmp = None) as Hstep.
    { intros s0 r0 Hrun _. destruct (decide (tmp' = tmp)) as [->|Hne].
      - assert (t' = t) as -> by (by eapply with_tmp_suffix_inj).
        assert (g = f) as -> by (by eapply target_of_inj).
        rewrite Hpol in Hrun. simpl in Hrun.
        eapply prepend_noop_frame in Hrun as (Hev & _); [|done..].
        split.
        + rewrite (evolves_file_at _ _ _ _ _ Hev); [done|tauto].
        + rewrite (evolves_untouched _ _ _ _ _ Hev); [done|tauto|].
          by apply with_tmp_suffix_not_prefix_parent.
      - apply sync_by_policy_frame in Hrun as (Hev & _). split.
        + rewrite (evolves_file_at _ _ _ _ _ Hev); [done|].
          intros <-. apply (Hapart1 tmp'); [by left|done].
        + rewrite (evolves_untouched _ _ _ _ _ Hev); [done|congruence|].
          intros Hpre. apply (Hapart2 t'); [by left|].
          etrans; [done|apply parent_prefix]. }
    intros [(policy & ? & [= Hp <-] & Hk)|(? & [= Hp <-] & ->)]%bind_inv; [|done].
    rewrite Hp in Hstep. simpl in Hstep.
    apply bind_inv in Hk as [(b & s0 & Hrun & Hk)|(? & Hrun & ->)].
    + destruct (Hstep _ _ Hrun ltac:(done)) as [Hc0 Hfree0].
      eapply IH; [| | |done..|exact Hk].
      * intros ??? Hin. apply Hwf. by right.
      * intros ? Hin. apply Hapart1. by right.
      * intros ? Hin. apply Hapart2. by right.
    + by eapply Hstep.
Qed.

Lemma rename_file_inv (fs fs' : FS) (src dst : Path) (x : string) :
  lookup_node fs src = Some (File x) → rename fs src dst = Ok fs' →
  fs' = <[dst := File x]> (delete src fs).
Proof.
  unfold rename. intros ->. destruct (lookup_node fs (parent dst)) as [[|?]|]; [|done..].
  destruct (lookup_node fs dst) as [[|?]|]; [done|..]; by intros [= <-].
Qed.

(** Promotion leaves an already-prepended target alone when nothing was
    staged for it. *)
Lemma promote_all_keeps_target cands s r s2 t tmp c :
  (∀ g t' tmp', (g, t', tmp') ∈ cands → with_tmp_suffix t' = Ok tmp') →
  with_tmp_suffix t = Ok tmp →
  (∀ tmp', tmp' ∈ cands.*2 → tmp' ≠ t) →
  (∀ t', t' ∈ cands.*1.*2 → t' ≠ tmp) →
  (∀ tmp', tmp' ∈ cands.*2 → disk s !! tmp' ≠ Some Dir) →
  file_at (disk s) t = Some c →
  disk s !! tmp = None →
  promote_all cands s = (r, s2) →
  file_at (disk s2) t = Some c ∧ disk s2 !! tmp = None.
Proof.
  intros Hwf Htmp. revert s.
  induction cands as [|[[g t'] tmp'] cands IH]; intros s Hn1 Hn2 Hnd Hc Hfree.
  - by intros [= _ <-].
  - unfold promote_all. simpl. fold (promote_all cands).
    assert (∀ r0 s0, promote (g, t', tmp') s = (r0, s0) →
            file_at (disk s0) t = Some c ∧ disk s0 !! tmp = None
            ∧ ∀ p, disk s !! p ≠ Some Dir → disk s0 !! p ≠ Some Dir) as Hstep.
    { intros r0 s0. unfold promote.
      intros [(ex & ? & [Hex ->]%reading_inv & Hk)|(? & [? ->]%reading_inv & _)]%bind_inv;
        [|done].
      injection Hex as ->. unfold exists_ in Hk.
      pose proof (Hwf _ _ _ ltac:(by left)) as Hgtmp.
      assert (tmp' ≠ []) as Hne.
      { apply with_tmp_suffix_inv in Hgtmp as (d & n & _ & ->). by destruct d. }
      rewrite lookup_node_ne in Hk by done.
      destruct (disk s !! tmp') as [[|x]|] eqn:Hl.
      - exfalso. by apply (Hnd tmp'); [left|].
      - apply writing_inv in Hk as [(d & Hd & _ & ->)|(? & _ & _ & ->)]; [|done].
        apply (rename_file_inv _ _ _ _ x) in Hd; [|by rewrite lookup_node_ne]. subst d.
        assert (tmp' ≠ tmp) by congruence.
        assert (t' ≠ t).
        { intros ->. rewrite Htmp in Hgtmp. congruence. }
        assert (tmp' ≠ t) by (apply Hn1; by left).
        assert (t' ≠ tmp) by (apply Hn2; by left).
        simpl. split_and!.
        + apply file_at_lookup in Hc as [? Hc]. apply file_at_lookup. split; [done|].
          by rewrite lookup_insert_ne, lookup_delete_ne.
        + by rewrite lookup_insert_ne, lookup_delete_ne.
        + intros p Hp. destruct (decide (t' = p)) as [->|?].
          * by rewrite lookup_insert_eq.
          * rewrite lookup_insert_ne by done. destruct (decide (tmp' = p)) as [->|?].
            -- by rewrite lookup_delete_eq.
            -- by rewrite lookup_delete_ne.
      - by injection Hk as _ <-. }
    intros [([] & s0 & Hrun & Hk)|(? & Hrun & _)]%bind_inv.
    + destruct (Hstep _ _ Hrun) as (Hc0 & Hfree0 & Hnd0).
      eapply IH; [| | | |done..|exact Hk].
      * intros ??? Hin. eapply Hwf. by right.
      * intros ? Hin. apply Hn1. by right.
      * intros ? Hin. apply Hn2. by right.
      * intros ? Hin. apply Hnd0, Hnd. by right.
    + by destruct (Hstep _ _ Hrun) as (? & ? & _).
Qed.

(** A file whose every prompt is answered yes (or a forced run) ends up
    recorded as synced. *)
Lemma stage_all_granted cands force synced s synced' s1 g :
  stage_all self cands force synced s = (Ok synced', s1) →
  (force = true ∨ ∀ i line, cands.*1.*1 !! i = Some g → stdin s !! i = Some line →
                            confirms line = true) →
  g ∈ cands.*1.*1 ∨ synced !! g = Some true →
  synced' !! g = Some true.
Proof.
  revert synced s. induction cands as [|[[source target] tmp] cands IH]; intros synced s; simpl.
  - intros [= <- <-] _ [Hin|?]; [by apply elem_of_nil in Hin|done].
  - intros [(policy & ? & [= _ <-] & Hk)|(? & _ & ?)]%bind_inv; [|done].
    apply bind_inv in Hk as [(b & s0 & Hstep & Hk)|(? & _ & ?)]; [|done].
    apply sync_by_policy_returns in Hstep as (d & _ & Hb & _).
    intros Hgo Hg.
    assert (source = g → b = true) as Hbg.
    { intros ->. destruct Hb as [(_ & -> & _)|(Hf & l0 & Hin & ->)]; [done|].
      destruct Hgo as [?|Hgo]; [congruence|]. apply (Hgo 0%nat); [done|]. by rewrite Hin. }
    eapply IH; [exact Hk| |].
    + destruct Hb as [(? & _)|(_ & l0 & Hin & _)]; [by left|].
      destruct Hgo as [?|Hgo]; [by left|right]. intros i line Hi Hline.
      apply (Hgo (S i)); [done|]. by rewrite Hin.
    + destruct (decide (source = g)) as [Heq|Hne].
      * right. rewrite Heq, lookup_insert_eq. f_equal. by apply Hbg.
      * rewrite lookup_insert_ne by done. destruct Hg as [Hin|?]; [|by right].
        left. by apply elem_of_cons in Hin as [?|?].
Qed.

Lemma candidates_wf source_files targets tmps g t tmp :
  map_result (target_of self) source_files = Ok targets →
  map_result with_tmp_suffix targets = Ok tmps →
  (g, t, tmp) ∈ zip (zip source_files targets) tmps →
  target_of self g = Ok t ∧ with_tmp_suffix t = Ok tmp.
Proof.
  intros Ht Htmp (i & Hi)%list_elem_of_lookup.
  apply lookup_zip_with_Some in Hi as ([g1 t1] & tmp1 & [= -> -> ->] & Hi & Hi3).
  apply lookup_zip_with_Some in Hi as (g2 & t2 & [= -> ->] & Hi1 & Hi2).
  destruct (map_result_lookup _ _ _ _ _ Ht Hi1) as (y & Hy & Hty).
  destruct (map_result_lookup _ _ _ _ _ Htmp Hi2) as (z & Hz & Htz).
  split; congruence.
Qed.

End Batch.

Section Batch.
Context `{Runtime}.
Variable self : ConfigSyncer.


End Batch.

Section Examples.
Import Example.
Existing Instance runtime.



(** C2 (directory exclusion anywhere in the path) fails.  The directory
    patterns are compared with [str] of each of [relative_path.parents], so
    [__pycache__/] excludes [__pycache__/m.pyc] and not
    [pkg/__pycache__/m.pyc]: that file is a sync candidate and the detector
    gives it a state entry. *)
Lemma nested_cache_is_a_candidate :
  excluded_by_pattern ["__pycache__"; "m.pyc"] EXCLUDE_PATTERNS = Ok true
  ∧ excluded_by_pattern ["pkg"; "__pycache__"; "m.pyc"] EXCLUDE_PATTERNS = Ok false
  ∧ (get_syncing_files syncer nested_cache).1 = Ok [configs ++ ["pkg"; "__pycache__"; "m.pyc"]]
  ∧ sync_state nested_cache !! (configs ++ ["pkg"; "__pycache__"; "m.pyc"]) = None
  ∧ sync_state (get_syncing_files syncer nested_cache).2
      !! (configs ++ ["pkg"; "__pycache__"; "m.pyc"])
    = Some {[ "hash" := "bytecode"; "last sync timestamp" := "2026-01-01T00:00:00";
              "sync reason" := "New file to be synced" ]}.
Proof. split_and!; vm_compute; reflexivity. Qed.

(** C3 (prepending twice is prepending once) fails in the creation case.
    The first run creates the target as the two header lines with no newline
    after the directive; the second run reads a second line that is not the
    expected one, and prepends the header again. *)
Lemma created_header_is_prepended_again :
  file_at (disk bashrc_new) (home ++ [".bashrc"]) = None
  ∧ (main_sync syncer true bashrc_new).1 = Ok 0%Z
  ∧ file_at (disk (main_sync syncer true bashrc_new).2) (home ++ [".bashrc"])
    = Some (source_statement bashrc)
  ∧ (main_sync syncer true (main_sync syncer true bashrc_new).2).1 = Ok 0%Z
  ∧ file_at (disk (main_sync syncer true (main_sync syncer true bashrc_new).2).2)
            (home ++ [".bashrc"])
    = Some (source_statement bashrc +:+ nl +:+ nl +:+ source_statement bashrc).
Proof. split_and!; vm_compute; reflexivity. Qed.

(** C4 (the expected-condition check never raises) fails.  With a target of
    one line under [PREPEND_SOURCE_STATEMENT], [target_lines[1]] raises
    [IndexError], and so do the detector and [get_syncing_files]; the merge
    itself guards the same lookup with [len(origin_lines) < 2]. *)
Lemma short_target_raises_index_error :
  readlines (disk bashrc_short) (home ++ [".bashrc"]) = Ok ["# mine"]
  ∧ (_validate_expected_condition syncer bashrc (home ++ [".bashrc"]) bashrc_short).1
    = Raise IndexError
  ∧ (_validate_exclude syncer bashrc bashrc_short).1 = Raise IndexError
  ∧ (get_syncing_files syncer bashrc_short).1 = Raise IndexError
  ∧ (_sync_by_policy bashrc (home ++ [".bashrc"]) (home ++ [".bashrc.tmp_sync"])
       PREPEND_SOURCE_STATEMENT true bashrc_short).1 = Ok true.
Proof. split_and!; vm_compute; reflexivity. Qed.



(** C6 (overwrite round trip) fails.  A new file with a CR LF line end is
    read and written as text, so the target has LF where the source has
    CR LF; the next detection finds the digests apart and lists the file
    again. *)
Lemma crlf_source_is_not_copied_bytewise :
  read_bytes (disk crlf_new) (configs ++ ["dos.conf"]) = Ok crlf_text
  ∧ (main_sync syncer true crlf_new).1 = Ok 0%Z
  ∧ read_bytes (disk (main_sync syncer true crlf_new).2) (home ++ ["dos.conf"])
    = Ok ("a" +:+ nl +:+ "b")
  ∧ (get_syncing_files syncer (main_sync syncer true crlf_new).2).1
    = Ok [configs ++ ["dos.conf"]]
  ∧ default ∅ (sync_state (get_syncing_files syncer (main_sync syncer true crlf_new).2).2
                 !! (configs ++ ["dos.conf"])) !! "sync reason"
    = Some "Target file does not meet the expected condition".
Proof. split_and!; vm_compute; reflexivity. Qed.


Lemma append_stages_concatenation_witness :
  ∃ s', _sync_by_policy (configs ++ ["notes"]) (home ++ ["notes"]) (home ++ ["notes.tmp_sync"])
          APPEND true appending = (Ok true, s')
      ∧ disk s' = <[home ++ ["notes.tmp_sync"] := File ("A" +:+ nl +:+ nl +:+ "B")]>
                    (disk appending).
Proof.
  apply (append_stages_concatenation (configs ++ ["notes"]) (home ++ ["notes"])
           (home ++ ["notes.tmp_sync"]) true appending "A" "B").
  - reflexivity.
  - reflexivity.
  - repeat constructor.
  - reflexivity.
  - reflexivity.
  - by left.
Defined.

Lemma target_missing_keeps_hash_witness :
  (_validate_exclude syncer (configs ++ ["vimrc"]) target_gone).1 = Ok false
  ∧ default ∅ (sync_state (_validate_exclude syncer (configs ++ ["vimrc"]) target_gone).2
                 !! (configs ++ ["vimrc"])) !! "hash" = Some "set nu".
Proof.
  destruct (target_missing_keeps_hash syncer (configs ++ ["vimrc"]) ["vimrc"] target_gone
              (entry_of "set nu" "New file to be synced") "set nu" "set nu")
    as (Hrun & Hhash & _); try reflexivity.
  rewrite Hrun. simpl. split; [reflexivity|]. rewrite lookup_insert_eq. exact Hhash.
Defined.




Lemma decline_still_creates_parents_witness :
  exists_ (disk nested) (home ++ ["nvim"]) = false
  ∧ mkdir_parents (disk nested) (home ++ ["nvim"])
    = Ok (disk (_sync_by_policy (configs ++ ["nvim"; "init.lua"]) (home ++ ["nvim"; "init.lua"])
                  (home ++ ["nvim"; "init.lua.tmp_sync"]) OVERWRITE false nested).2)
  ∧ is_dir (disk (_sync_by_policy (configs ++ ["nvim"; "init.lua"]) (home ++ ["nvim"; "init.lua"])
                    (home ++ ["nvim"; "init.lua.tmp_sync"]) OVERWRITE false nested).2)
           (home ++ ["nvim"]) = true.
Proof.
  split; [reflexivity|].
  destruct (decline_still_creates_parents
              (configs ++ ["nvim"; "init.lua"]) (home ++ ["nvim"; "init.lua"])
              (home ++ ["nvim"; "init.lua.tmp_sync"]) OVERWRITE false nested
              (_sync_by_policy (configs ++ ["nvim"; "init.lua"]) (home ++ ["nvim"; "init.lua"])
                 (home ++ ["nvim"; "init.lua.tmp_sync"]) OVERWRITE false nested).2)
    as (Hmk & Hdir & _).
  - reflexivity.
  - vm_compute. reflexivity.
  - split; [exact Hmk|exact Hdir].
Defined.

End Examples.

(** * More of the script *)

(** ** The command line *)

Lemma take_actions_overwrite flags seen_append seen_overwrite ns args :
  overwrite ns = true →
  take_actions flags seen_append seen_overwrite ns = Args args →
  overwrite args = true.
Proof.
  revert seen_append seen_overwrite ns.
  induction flags as [|flag flags IH]; intros sa so ns Hns Hrun; simpl in Hrun.
  - by injection Hrun as <-.
  - destruct flag; try discriminate Hrun; try (by eapply IH; [|exact Hrun]).
    + destruct so; [discriminate Hrun|]. by eapply IH; [|exact Hrun].
    + destruct sa; [discriminate Hrun|]. by eapply IH; [|exact Hrun].
Qed.

(** X1.  Whatever options are given, [--append] among them, the default policy
    the script settles on is [OVERWRITE]. *)
Theorem default_policy_is_always_overwrite flags args :
  parse_arguments flags = Args args →
  DEFAULT_POLICY args = Some OVERWRITE.
Proof.
  intros Hrun. unfold DEFAULT_POLICY.
  by rewrite (take_actions_overwrite flags false false defaults args eq_refl Hrun).
Qed.

Lemma default_policy_is_always_overwrite_witness :
  parse_arguments [Append; Force] =
    Args {| append := true; overwrite := true; force := true;
            show_state := false; clear_state := false; debug := false |}
  ∧ DEFAULT_POLICY {| append := true; overwrite := true; force := true;
                      show_state := false; clear_state := false; debug := false |}
    = Some OVERWRITE.
Proof.
  split; [reflexivity|].
  apply (default_policy_is_always_overwrite [Append; Force]). reflexivity.
Defined.

(** ** Exclusion by pattern *)

Lemma has_char_app c a b : has_char c (a +:+ b) = has_char c a || has_char c b.
Proof. induction a as [|d a IH]; simpl; [done|]. by rewrite IH, orb_assoc. Qed.

Lemma rel_str_slash c c' p : has_char "/" (rel_str (c :: c' :: p)) = true.
Proof.
  change (rel_str (c :: c' :: p)) with (c +:+ "/" +:+ rel_str (c' :: p)).
  rewrite has_char_app. simpl. apply orb_true_r.
Qed.

Lemma rel_str_name part name :
  has_char "/" name = false → name ≠ "." →
  rel_str part = name ↔ part = [name].
Proof.
  intros Hs Hd. split; [|by intros ->].
  destruct part as [|c [|c' p]]; intros Heq.
  - done.
  - simpl in Heq. by subst.
  - exfalso. rewrite <- Heq, rel_str_slash in Hs. done.
Qed.

Lemma dir_rule rel name :
  has_char "/" name = false → name ≠ "." →
  existsb (λ part, bool_decide (rel_str part = name)) (parents rel) = true
  ↔ ∃ rest, rel = name :: rest ∧ rest ≠ [].
Proof.
  intros Hs Hd. rewrite existsb_exists. split.
  - intros (part & Hin%list_elem_of_In & Heq%bool_decide_eq_true).
    apply rel_str_name in Heq as ->; [|done..].
    apply elem_of_parents in Hin as (k & Hk & Hpart).
    destruct rel as [|d [|c rest]]; simpl in *.
    + lia.
    + destruct k as [|k]; [done|lia].
    + destruct k as [|[|k]]; [done| |done]. injection Hpart as ->. eauto.
  - intros (rest & -> & Hrest). exists [name]. split.
    + apply list_elem_of_In, elem_of_parents. exists 1%nat. split; [|done].
      destruct rest; [done|simpl; lia].
    + by apply bool_decide_eq_true.
Qed.

Lemma fnmatchcase_literal pat s :
  has_char "*" pat = false → has_char "?" pat = false →
  fnmatchcase s pat = bool_decide (s = pat).
Proof.
  unfold fnmatchcase. revert s. induction pat as [|p pat IH]; intros s Hstar Hq.
  - destruct s; symmetry; [by apply bool_decide_eq_true|by apply bool_decide_eq_false].
  - change (Ascii.eqb "*" p || has_char "*" pat = false) in Hstar.
    change (Ascii.eqb "?" p || has_char "?" pat = false) in Hq.
    apply orb_false_iff in Hstar as [Hp1 Hstar].
    apply orb_false_iff in Hq as [Hp2 Hq].
    rewrite Ascii.eqb_sym in Hp1. rewrite Ascii.eqb_sym in Hp2.
    cbn [fnmatchcase_rev]. rewrite Hp1, Hp2.
    destruct s as [|c s]; [symmetry; by apply bool_decide_eq_false|].
    rewrite IH by done. destruct (Ascii.eqb_spec p c) as [->|Hne]; simpl.
    + apply bool_decide_ext. naive_solver.
    + symmetry. apply bool_decide_eq_false. naive_solver.
Qed.

Lemma file_rule rel pat :
  components pat = [pat] → startswith_slash pat = false →
  has_char "*" pat = false → has_char "?" pat = false →
  path_match rel pat = Ok (bool_decide (last rel = Some pat)).
Proof.
  intros Hc Hsl Hstar Hq. unfold path_match. rewrite Hc, Hsl.
  destruct rel as [|n rel _] using rev_ind.
  - reflexivity.
  - rewrite length_app, reverse_snoc, last_snoc. simpl.
    replace (length rel + 1 <? 1)%nat with false by (symmetry; apply Nat.ltb_ge; lia).
    f_equal. destruct (reverse rel); simpl; rewrite andb_true_r, fnmatchcase_literal by done;
      apply bool_decide_ext; naive_solver.
Qed.

Lemma excluded_by_dir rel pat name rest :
  endswith_slash pat = true → drop_last pat = name →
  excluded_by_pattern rel (pat :: rest)
  = if existsb (λ part, bool_decide (rel_str part = name)) (parents rel)
    then Ok true else excluded_by_pattern rel rest.
Proof. intros Hs <-. cbn [excluded_by_pattern]. by rewrite Hs. Qed.

Lemma excluded_by_file rel pat rest :
  endswith_slash pat = false →
  components pat = [pat] → startswith_slash pat = false →
  has_char "*" pat = false → has_char "?" pat = false →
  excluded_by_pattern rel (pat :: rest)
  = if bool_decide (last rel = Some pat) then Ok true else excluded_by_pattern rel rest.
Proof.
  intros Hs Hc Hsl Hstar Hq. cbn [excluded_by_pattern]. rewrite Hs, file_rule by done. done.
Qed.

(** X2.  The paths the default patterns exclude: those whose first component is
    one of the three directory names and is not the whole path, and those
    whose last component is one of the five file names; no others, and the
    test never raises. *)
Theorem excluded_paths rel :
  ∃ b, excluded_by_pattern rel EXCLUDE_PATTERNS = Ok b
     ∧ (b = true ↔
          (∃ d rest, rel = d :: rest ∧ rest ≠ []
                     ∧ d ∈ [".git"; "__pycache__"; "debug_home"])
          ∨ (∃ n, last rel = Some n
                  ∧ n ∈ [".gitignore"; ".sync_state.json"; "setup.py"; "setup.sh";
                         "README.md"])).
Proof.
  unfold EXCLUDE_PATTERNS.
  rewrite (excluded_by_dir rel ".git/" ".git") by reflexivity.
  rewrite (excluded_by_dir rel "__pycache__/" "__pycache__") by reflexivity.
  rewrite (excluded_by_dir rel "debug_home/" "debug_home") by reflexivity.
  rewrite (excluded_by_file rel ".gitignore") by reflexivity.
  rewrite (excluded_by_file rel ".sync_state.json") by reflexivity.
  rewrite (excluded_by_file rel "setup.py") by reflexivity.
  rewrite (excluded_by_file rel "setup.sh") by reflexivity.
  rewrite (excluded_by_file rel "README.md") by reflexivity.
  cbn [excluded_by_pattern].
  destruct (existsb (λ part, bool_decide (rel_str part = ".git")) (parents rel)) eqn:E1.
  { apply dir_rule in E1 as (rest & -> & Hrest); [|done..].
    exists true. split; [done|]. split; [intros _|done]. left.
    exists ".git", rest. set_solver. }
  destruct (existsb (λ part, bool_decide (rel_str part = "__pycache__")) (parents rel)) eqn:E2.
  { apply dir_rule in E2 as (rest & -> & Hrest); [|done..].
    exists true. split; [done|]. split; [intros _|done]. left.
    exists "__pycache__", rest. set_solver. }
  destruct (existsb (λ part, bool_decide (rel_str part = "debug_home")) (parents rel)) eqn:E3.
  { apply dir_rule in E3 as (rest & -> & Hrest); [|done..].
    exists true. split; [done|]. split; [intros _|done]. left.
    exists "debug_home", rest. set_solver. }
  apply not_true_iff_false in E1, E2, E3.
  rewrite dir_rule in E1, E2, E3 by done.
  repeat case_bool_decide;
    try (exists true; split; [done|]; split; [intros _|done]; right; eexists; split; [eassumption|set_solver]).
  exists false. split; [done|]. split; [done|].
  intros [(d & rest & -> & Hrest & Hd)|(n & Hlast & Hn)]; exfalso.
  - each_member Hd; eauto.
  - each_member Hn; eauto.
Qed.

(** ** Detection *)

Global Instance detects_preorder source : PreOrder (detects source).
Proof.
  split.
  - intros s. unfold detects. split_and!; done.
  - intros s1 s2 s3 (D1 & I1 & C1 & O1 & E1) (D2 & I2 & C2 & O2 & E2).
    unfold detects. split_and!; [congruence|congruence|lia| |tauto].
    intros p Hp. rewrite O2, O1; done.
Qed.

Section Detection.
Context `{Runtime}.
Variable self : ConfigSyncer.

Lemma keeps_now_isoformat source : keeps (detects source) now_isoformat.
Proof.
  intros s r s' [= _ <-]. unfold detects. simpl. split_and!; try done. lia.
Qed.

Lemma keeps_set_entry_field source key value :
  keeps (detects source) (set_entry_field source key value).
Proof.
  intros s r s' Hrun. unfold set_entry_field in Hrun.
  destruct (sync_state s !! source) as [e|] eqn:He; injection Hrun as _ <-;
    [|reflexivity].
  unfold detects. simpl. split_and!; try done.
  - intros p Hp. by rewrite lookup_insert_ne.
  - intros _. rewrite lookup_insert_eq. eauto.
Qed.

Lemma keeps_expected_condition source target_path :
  keeps (detects source) (_validate_expected_condition self source target_path).
Proof.
  unfold _validate_expected_condition.
  apply keeps_bind; [apply _|apply keeps_pure_result, _|]. intros policy.
  destruct policy.
  - apply keeps_bind; [apply _|apply keeps_reading, _|]. intros ?.
    apply keeps_bind; [apply _|apply keeps_reading, _|]. intros ?. apply keeps_ret, _.
  - apply keeps_bind; [apply _|apply keeps_reading, _|]. intros ?.
    apply keeps_bind; [apply _|apply keeps_reading, _|]. intros ?. apply keeps_ret, _.
  - apply keeps_bind; [apply _|apply keeps_reading, _|]. intros lines.
    destruct (lines !! 1%nat); [apply keeps_ret, _|apply keeps_raise, _].
Qed.

Lemma validate_exclude_detects source :
  keeps (detects source) (_validate_exclude self source).
Proof.
  unfold _validate_exclude.
  apply keeps_bind; [apply _|apply keeps_pure_result, _|]. intros rel.
  apply keeps_bind; [apply _|apply keeps_pure_result, _|]. intros excluded.
  destruct excluded; [apply keeps_ret, _|].
  apply keeps_bind; [apply _|apply keeps_now_isoformat|]. intros timestamp.
  apply keeps_bind; [apply _|apply keeps_gets, _|]. intros previous_hash.
  apply keeps_bind; [apply _|apply keeps_reading, _|]. intros current_hash.
  apply keeps_bind; [apply _|apply keeps_gets, _|]. intros known.
  destruct (negb known).
  { apply keeps_bind; [apply _| |].
    - apply keeps_modify. intros s. unfold detects. simpl. split_and!; try done.
      + intros p Hp. by rewrite lookup_insert_ne.
      + intros _. rewrite lookup_insert_eq. eauto.
    - intros _.
      repeat (apply keeps_bind; [apply _|apply keeps_set_entry_field|]; intros _).
      apply keeps_ret, _. }
  destruct (negb _).
  { repeat (apply keeps_bind; [apply _|apply keeps_set_entry_field|]; intros _).
    apply keeps_ret, _. }
  apply keeps_bind; [apply _|apply keeps_reading, _|]. intros target_exists.
  destruct (negb target_exists).
  { repeat (apply keeps_bind; [apply _|apply keeps_set_entry_field|]; intros _).
    apply keeps_ret, _. }
  apply keeps_bind; [apply _|apply keeps_expected_condition|]. intros met.
  destruct (negb met); [|apply keeps_ret, _].
  repeat (apply keeps_bind; [apply _|apply keeps_set_entry_field|]; intros _).
  apply keeps_ret, _.
Qed.

Lemma set_entry_field_ok source key value s e :
  sync_state s !! source = Some e →
  set_entry_field source key value s
  = (Ok tt, set_sync_state (<[source := <[key := value]> e]> (sync_state s)) s).
Proof. intros He. unfold set_entry_field. by rewrite He. Qed.

Lemma expected_condition_reads source target_path s r s' :
  _validate_expected_condition self source target_path s = (r, s') → s' = s.
Proof.
  unfold _validate_expected_condition.
  cbv [bind pure_result _compute_file_hash reading ret raise].
  destruct (policy_of self source) as [[| |]|]; simpl.
  - destruct (read_bytes (disk s) source); simpl; [|by intros [= _ <-]].
    destruct (read_bytes (disk s) target_path); simpl; by intros [= _ <-].
  - destruct (read_bytes (disk s) source); simpl; [|by intros [= _ <-]].
    destruct (read_bytes (disk s) target_path); simpl; by intros [= _ <-].
  - destruct (readlines (disk s) target_path) as [lines|]; simpl; [|by intros [= _ <-]].
    destruct (lines !! 1%nat); by intros [= _ <-].
  - by intros [= _ <-].
Qed.

Lemma expected_condition_disk source target_path s :
  ∃ r, ∀ s', disk s' = disk s →
    _validate_expected_condition self source target_path s' = (r, s').
Proof.
  unfold _validate_expected_condition.
  cbv [bind pure_result _compute_file_hash reading ret raise].
  destruct (policy_of self source) as [[| |]|]; simpl.
  - destruct (read_bytes (disk s) source) eqn:E1; simpl.
    + destruct (read_bytes (disk s) target_path) eqn:E2; eexists; intros s' ->;
        rewrite E1; simpl; rewrite E2; done.
    + eexists; intros s' ->; rewrite E1; done.
  - destruct (read_bytes (disk s) source) eqn:E1; simpl.
    + destruct (read_bytes (disk s) target_path) eqn:E2; eexists; intros s' ->;
        rewrite E1; simpl; rewrite E2; done.
    + eexists; intros s' ->; rewrite E1; done.
  - destruct (readlines (disk s) target_path) as [lines|] eqn:E1; simpl.
    + destruct (lines !! 1%nat) eqn:E2; eexists; intros s' ->; rewrite E1; simpl;
        rewrite E2; done.
    + eexists; intros s' ->; rewrite E1; done.
  - eexists. by intros s' _.
Qed.

Ltac set_fields :=
  repeat (erewrite set_entry_field_ok in * by (simpl; first [eassumption|apply lookup_insert_eq]));
  simpl in *.

Lemma flagged_inv source s s' :
  _validate_exclude self source s = (Ok false, s') →
  ∃ e b, sync_state s' !! source = Some e
       ∧ read_bytes (disk s) source = Ok b
       ∧ e !! "hash" = Some (md5_hexdigest b)
       ∧ e !! "last sync timestamp" = Some (isoformat (clock s))
       ∧ is_Some (e !! "sync reason")
       ∧ clock s' = S (clock s).
Proof.
  intros Hrun. unfold _validate_exclude in Hrun.
  cbv [bind pure_result now_isoformat gets _compute_file_hash reading ret modify] in Hrun.
  destruct (relative_to source (configs_dir_path self)) as [rel|]; [|done].
  destruct (excluded_by_pattern rel (exclude_patterns self)) as [[|]|]; [done| |done].
  simpl in Hrun.
  destruct (read_bytes (disk s) source) as [b|] eqn:Hb; [|done]. simpl in Hrun.
  destruct (sync_state s !! source) as [e|] eqn:He.
  - rewrite bool_decide_true in Hrun by eauto. simpl in Hrun.
    case_bool_decide as Hh; simpl in Hrun.
    + destruct (exists_ (disk s) (joinpath (target_dir_path self) rel)); simpl in Hrun.
      * destruct (_validate_expected_condition _ _ _ _) as [r s1] eqn:Hc.
        apply expected_condition_reads in Hc as ->.
        destruct r as [[|]|]; simpl in Hrun; [done| |done].
        set_fields. injection Hrun as <-. simpl.
        eexists _, b. split_and!; [apply lookup_insert_eq|done|..|done].
        -- by rewrite !lookup_insert_ne.
        -- by rewrite lookup_insert_ne, lookup_insert_eq.
        -- rewrite lookup_insert_eq. eauto.
      * set_fields. injection Hrun as <-. simpl.
        eexists _, b. split_and!; [apply lookup_insert_eq|done|..|done].
        -- by rewrite !lookup_insert_ne.
        -- by rewrite lookup_insert_ne, lookup_insert_eq.
        -- rewrite lookup_insert_eq. eauto.
    + set_fields. injection Hrun as <-. simpl.
      eexists _, b. split_and!; [apply lookup_insert_eq|done|..|done].
      * by rewrite lookup_insert_ne, lookup_insert_ne, lookup_insert_eq.
      * by rewrite lookup_insert_ne, lookup_insert_eq.
      * rewrite lookup_insert_eq. eauto.
  - rewrite bool_decide_false in Hrun by (by intros [? ?]). simpl in Hrun.
    set_fields. injection Hrun as <-. simpl.
    eexists _, b. split_and!; [apply lookup_insert_eq|done|..|done].
    + by rewrite lookup_insert_ne, lookup_insert_ne, lookup_insert_eq.
    + by rewrite lookup_insert_ne, lookup_insert_eq.
    + rewrite lookup_insert_eq. eauto.
Qed.

Lemma skipped_inv source rel s s' :
  relative_to source (configs_dir_path self) = Ok rel →
  _validate_exclude self source s = (Ok true, s') →
  (excluded_by_pattern rel (exclude_patterns self) = Ok true ∧ s' = s)
  ∨ (excluded_by_pattern rel (exclude_patterns self) = Ok false
     ∧ s' = set_clock (S (clock s)) s
     ∧ ∃ e b, sync_state s !! source = Some e
            ∧ read_bytes (disk s) source = Ok b
            ∧ e !! "hash" = Some (md5_hexdigest b)
            ∧ exists_ (disk s) (joinpath (target_dir_path self) rel) = true
            ∧ _validate_expected_condition self source
                (joinpath (target_dir_path self) rel) s = (Ok true, s)).
Proof.
  intros Hrel Hrun. unfold _validate_exclude in Hrun.
  cbv [bind pure_result now_isoformat gets _compute_file_hash reading ret modify] in Hrun.
  rewrite Hrel in Hrun.
  destruct (excluded_by_pattern rel (exclude_patterns self)) as [[|]|]; [|right|done].
  { injection Hrun as <-. by left. }
  simpl in Hrun.
  destruct (read_bytes (disk s) source) as [b|] eqn:Hb; [|done]. simpl in Hrun.
  destruct (sync_state s !! source) as [e|] eqn:He.
  - rewrite bool_decide_true in Hrun by eauto. simpl in Hrun.
    case_bool_decide as Hh; simpl in Hrun.
    + destruct (exists_ (disk s) (joinpath (target_dir_path self) rel)) eqn:Hex;
        simpl in Hrun.
      * destruct (_validate_expected_condition _ _ _ _) as [r s1] eqn:Hc.
        pose proof (expected_condition_reads _ _ _ _ _ Hc) as ->.
        destruct r as [[|]|]; simpl in Hrun.
        -- injection Hrun as <-. split; [done|]. split; [done|].
           exists e, b. split_and!; try done.
           destruct (expected_condition_disk source
                       (joinpath (target_dir_path self) rel) s) as [r Hr].
           rewrite (Hr (set_clock (S (clock s)) s)) in Hc by done.
           injection Hc as ->. by apply Hr.
        -- set_fields. done.
        -- done.
      * set_fields. done.
    + set_fields. done.
  - rewrite bool_decide_false in Hrun by (by intros [? ?]). simpl in Hrun.
    set_fields. done.
Qed.

Lemma expected_condition_true source target_path s :
  _validate_expected_condition self source target_path s = (Ok true, s) →
  ∃ policy, policy_of self source = Ok policy
    ∧ if decide (policy = PREPEND_SOURCE_STATEMENT)
      then ∃ lines, readlines (disk s) target_path = Ok lines
                  ∧ lines !! 1%nat = Some (expected_statement source)
      else ∃ sb tb, read_bytes (disk s) source = Ok sb
                  ∧ read_bytes (disk s) target_path = Ok tb
                  ∧ md5_hexdigest sb = md5_hexdigest tb.
Proof.
  unfold _validate_expected_condition.
  cbv [bind pure_result _compute_file_hash reading ret raise].
  destruct (policy_of self source) as [policy|]; [|done]. simpl. intros Hrun.
  exists policy. split; [done|]. destruct policy; simpl in *.
  - destruct (read_bytes (disk s) source) as [sb|]; [|done]. simpl in Hrun.
    destruct (read_bytes (disk s) target_path) as [tb|]; [|done]. simpl in Hrun.
    injection Hrun as Hd%bool_decide_eq_true. eauto.
  - destruct (read_bytes (disk s) source) as [sb|]; [|done]. simpl in Hrun.
    destruct (read_bytes (disk s) target_path) as [tb|]; [|done]. simpl in Hrun.
    injection Hrun as Hd%bool_decide_eq_true. eauto.
  - destruct (readlines (disk s) target_path) as [lines|]; [|done]. simpl in Hrun.
    destruct (lines !! 1%nat) as [line|] eqn:Hl; [|done].
    injection Hrun as Hd%bool_decide_eq_true. subst. eauto.
Qed.

(** X3.  A file the detector flags ends up recorded: its entry holds the digest
    of what the source holds now, the reading of the clock, and a reason. *)
Theorem flagged_file_is_recorded source s s' :
  _validate_exclude self source s = (Ok false, s') →
  ∃ e b, sync_state s' !! source = Some e
       ∧ read_bytes (disk s) source = Ok b
       ∧ e !! "hash" = Some (md5_hexdigest b)
       ∧ e !! "last sync timestamp" = Some (isoformat (clock s))
       ∧ is_Some (e !! "sync reason")
       ∧ clock s' = S (clock s).
Proof. apply flagged_inv. Qed.

(** X4.  The detector skips a file only if a pattern excludes it, and then it
    changes nothing, or if the file is recorded with the digest of what it
    holds now, its target exists, and the target meets the condition of
    the file's policy: the directive on the second line, or the digest of
    the source; then only the clock has moved. *)
Theorem skipped_file_is_excluded_or_current source rel s s' :
  relative_to source (configs_dir_path self) = Ok rel →
  _validate_exclude self source s = (Ok true, s') →
  (excluded_by_pattern rel (exclude_patterns self) = Ok true ∧ s' = s)
  ∨ (excluded_by_pattern rel (exclude_patterns self) = Ok false
     ∧ s' = set_clock (S (clock s)) s
     ∧ ∃ e b policy,
         sync_state s !! source = Some e
         ∧ read_bytes (disk s) source = Ok b
         ∧ e !! "hash" = Some (md5_hexdigest b)
         ∧ exists_ (disk s) (joinpath (target_dir_path self) rel) = true
         ∧ policy_of self source = Ok policy
         ∧ if decide (policy = PREPEND_SOURCE_STATEMENT)
           then ∃ lines,
                  readlines (disk s) (joinpath (target_dir_path self) rel) = Ok lines
                  ∧ lines !! 1%nat = Some (expected_statement source)
           else ∃ tb,
                  read_bytes (disk s) (joinpath (target_dir_path self) rel) = Ok tb
                  ∧ md5_hexdigest tb = md5_hexdigest b).
Proof.
  intros Hrel Hrun.
  destruct (skipped_inv _ _ _ _ Hrel Hrun)
    as [?|(Hex & -> & e & b & He & Hb & Hh & Ht & Hc)]; [by left|right].
  split; [done|]. split; [done|].
  apply expected_condition_true in Hc as (policy & Hp & Hc).
  exists e, b, policy. split_and!; try done.
  case_decide; [done|]. destruct Hc as (sb & tb & Hsb & Htb & Hmd).
  exists tb. split; [done|]. congruence.
Qed.

(** X5.  Whatever the detector answers for [source], and also when it raises:
    the filesystem and the operator's lines are as before, the clock has
    not gone back, every entry of another file is as before, and an entry
    of [source] that was there is still there. *)
Theorem detection_footprint source s r s' :
  _validate_exclude self source s = (r, s') →
  disk s' = disk s
  ∧ stdin s' = stdin s
  ∧ (clock s ≤ clock s')%nat
  ∧ (∀ p, p ≠ source → sync_state s' !! p = sync_state s !! p)
  ∧ (is_Some (sync_state s !! source) → is_Some (sync_state s' !! source)).
Proof. apply validate_exclude_detects. Qed.

Lemma collect_inv paths s files s' :
  NoDup paths →
  collect_syncing_files self paths s = (Ok files, s') →
  disk s' = disk s
  ∧ stdin s' = stdin s
  ∧ sublist files paths
  ∧ (∀ p, p ∉ paths → sync_state s' !! p = sync_state s !! p)
  ∧ ∀ f, f ∈ files →
      is_file (disk s) f = true
      ∧ ∃ e b, sync_state s' !! f = Some e
             ∧ read_bytes (disk s) f = Ok b
             ∧ e !! "hash" = Some (md5_hexdigest b).
Proof.
  intros Hnd. revert s files s'.
  induction Hnd as [|p rest Hp Hnd IH]; intros s files s' Hrun.
  - injection Hrun as <- <-. split_and!; try done. intros f Hf. by apply elem_of_nil in Hf.
  - simpl in Hrun.
    apply bind_inv in Hrun as [(regular & s0 & Hreg & Hrun)|(e & _ & [=])].
    apply reading_inv in Hreg as [[= ->] ->].
    destruct (is_file (disk s) p) eqn:Hfile; simpl in Hrun.
    + apply bind_inv in Hrun as [(skip & s1 & Hskip & Hrun)|(e & _ & [=])].
      pose proof (validate_exclude_detects p _ _ _ Hskip) as (Hd1 & Hi1 & _ & Ho1 & _).
      destruct skip.
      * apply IH in Hrun as (Hd & Hi & Hsub & Ho & Hfiles).
        split_and!; [congruence|congruence|by apply sublist_cons| |].
        -- intros q Hq. apply not_elem_of_cons in Hq as [Hq1 Hq2].
           rewrite Ho, Ho1; done.
        -- intros f Hf. rewrite <- Hd1. by apply Hfiles.
      * apply bind_inv in Hrun as [(more & s2 & Hmore & Hrun)|(e & _ & [=])].
        injection Hrun as <- <-.
        apply IH in Hmore as (Hd & Hi & Hsub & Ho & Hfiles).
        split_and!; [congruence|congruence|by apply sublist_skip| |].
        -- intros q Hq. apply not_elem_of_cons in Hq as [Hq1 Hq2].
           rewrite Ho, Ho1; done.
        -- intros f Hf. apply elem_of_cons in Hf as [->|Hf].
           ++ split; [done|].
              destruct (flagged_inv _ _ _ Hskip) as (e & b & He & Hb & Hh & _).
              exists e, b. split_and!; try done. by rewrite Ho.
           ++ rewrite <- Hd1. by apply Hfiles.
    + apply IH in Hrun as (Hd & Hi & Hsub & Ho & Hfiles).
      split_and!; [done|done|by apply sublist_cons| |done].
      intros q Hq. apply not_elem_of_cons in Hq as [Hq1 Hq2]. by apply Ho.
Qed.

(** X6.  What [get_syncing_files] hands to [sync]: regular files strictly below
    the configs directory, each once, and each recorded in the store with
    the digest of what it holds; the scan leaves the filesystem and the
    operator's lines alone. *)
Theorem candidates_are_recorded_files s files s' :
  get_syncing_files self s = (Ok files, s') →
  disk s' = disk s
  ∧ stdin s' = stdin s
  ∧ NoDup files
  ∧ ∀ f, f ∈ files →
      below (configs_dir_path self) f
      ∧ is_file (disk s) f = true
      ∧ ∃ e b, sync_state s' !! f = Some e
             ∧ read_bytes (disk s) f = Ok b
             ∧ e !! "hash" = Some (md5_hexdigest b).
Proof.
  unfold get_syncing_files. intros Hrun.
  apply bind_inv in Hrun as [(paths & s0 & Hp & Hrun)|(e & _ & [=])].
  apply reading_inv in Hp as [[= ->] ->].
  assert (NoDup (rglob (disk s) (configs_dir_path self))) as Hnd.
  { unfold rglob. apply NoDup_filter, NoDup_fst_map_to_list. }
  apply collect_inv in Hrun as (Hd & Hi & Hsub & _ & Hfiles); [|done].
  split_and!; [done|done|by eapply sublist_NoDup|].
  intros f Hf. destruct (Hfiles f Hf) as [Hfile Hrec]. split_and!; [|done..].
  eapply elem_of_sublist in Hf; [|done].
  unfold rglob in Hf. by apply list_elem_of_filter in Hf as [? _].
Qed.

(** X7.  In debug mode the target directory is [debug_home] inside the configs
    directory.  Whatever lies in it is skipped by the detector, which then
    changes nothing: what the syncer wrote there is never taken for a
    source. *)
Theorem debug_targets_are_not_sources rel s :
  target_dir_path self = configs_dir_path self ++ ["debug_home"] →
  exclude_patterns self = EXCLUDE_PATTERNS →
  rel ≠ [] →
  _validate_exclude self (joinpath (target_dir_path self) rel) s = (Ok true, s).
Proof.
  intros Ht Hp Hrel.
  assert (excluded_by_pattern ("debug_home" :: rel) EXCLUDE_PATTERNS = Ok true) as Hex.
  { unfold EXCLUDE_PATTERNS.
    rewrite (excluded_by_dir _ ".git/" ".git") by reflexivity.
    rewrite (excluded_by_dir _ "__pycache__/" "__pycache__") by reflexivity.
    rewrite (excluded_by_dir _ "debug_home/" "debug_home") by reflexivity.
    assert (existsb (λ part, bool_decide (rel_str part = "debug_home"))
                    (parents ("debug_home" :: rel)) = true) as ->.
    { apply dir_rule; [done..|]. eauto. }
    by repeat case_match. }
  unfold _validate_exclude, joinpath.
  rewrite Ht, <- (assoc_L (++)). cbn [app].
  erewrite bind_ok; [|unfold pure_result; by rewrite relative_to_app].
  erewrite bind_ok; [|unfold pure_result; by rewrite Hp, Hex]. done.
Qed.

End Detection.

(** ** Text *)

Lemma append_assoc (a b c : string) : (a +:+ b) +:+ c = a +:+ (b +:+ c).
Proof.
  induction a as [|x a IH]; [done|].
  change (String x ((a +:+ b) +:+ c) = String x (a +:+ (b +:+ c))). by f_equal.
Qed.

Lemma join_cons (l : string) (ls : list string) : join (l :: ls) = l +:+ join ls.
Proof. done. Qed.

Lemma join_split_lines (t : string) : join (split_lines t) = t.
Proof.
  induction t as [|c t IH]; [done|]. cbn [split_lines].
  destruct (Ascii.eqb_spec c LF) as [->|Hne].
  - rewrite join_cons, IH. done.
  - destruct (split_lines t) as [|l ls].
    + by rewrite <- IH.
    + rewrite join_cons in *. rewrite <- IH. done.
Qed.

Lemma split_lines_line (l rest : string) :
  has_char LF l = false →
  split_lines (l +:+ nl +:+ rest) = (l +:+ nl) :: split_lines rest.
Proof.
  induction l as [|c l IH]; intros Hl; [done|].
  change (Ascii.eqb LF c || has_char LF l = false) in Hl.
  apply orb_false_iff in Hl as [Hc Hl]. rewrite Ascii.eqb_sym in Hc.
  change (split_lines (String c (l +:+ nl +:+ rest))
          = String c (l +:+ nl) :: split_lines rest).
  cbn [split_lines]. rewrite Hc, IH by done. done.
Qed.

Lemma universal_newlines_app (a b : string) :
  has_char CR a = false →
  universal_newlines (a +:+ b) = a +:+ universal_newlines b.
Proof.
  induction a as [|c a IH]; intros Ha; [done|].
  change (Ascii.eqb CR c || has_char CR a = false) in Ha.
  apply orb_false_iff in Ha as [Hc Ha]. rewrite Ascii.eqb_sym in Hc.
  change (universal_newlines (String c (a +:+ b)) = String c (a +:+ universal_newlines b)).
  cbn [universal_newlines]. rewrite Hc, IH by done. done.
Qed.

Lemma universal_newlines_plain (a : string) :
  has_char CR a = false → universal_newlines a = a.
Proof.
  induction a as [|c a IH]; intros Ha; [done|].
  change (Ascii.eqb CR c || has_char CR a = false) in Ha.
  apply orb_false_iff in Ha as [Hc Ha]. rewrite Ascii.eqb_sym in Hc.
  cbn [universal_newlines]. rewrite Hc, IH by done. done.
Qed.

(** The text a prepend writes has the directive on its second line. *)
Lemma prepended_second_line (source : Path) (A : string) :
  has_char LF (path_str source) = false →
  has_char CR (path_str source) = false →
  split_lines (universal_newlines (source_statement source +:+ nl +:+ nl +:+ A)) !! 1%nat
  = Some (expected_statement source).
Proof.
  intros Hlf Hcr. unfold source_statement, expected_statement.
  set (p := path_str source) in *.
  rewrite universal_newlines_app.
  2:{ rewrite !has_char_app, Hcr. reflexivity. }
  replace (("# Source personal configs" +:+ nl +:+ "source " +:+ dq +:+ p +:+ dq)
             +:+ universal_newlines (nl +:+ nl +:+ A))
    with ("# Source personal configs" +:+ nl
            +:+ ("source " +:+ dq +:+ p +:+ dq) +:+ nl
            +:+ universal_newlines (nl +:+ A)).
  2:{ rewrite !append_assoc. reflexivity. }
  rewrite split_lines_line by reflexivity.
  rewrite split_lines_line.
  2:{ rewrite !has_char_app, Hlf. reflexivity. }
  simpl. by rewrite !append_assoc.
Qed.

(** ** The merge *)

Lemma not_prefix_parent (p : Path) : p ≠ [] → ¬ p `prefix_of` parent p.
Proof.
  intros Hp Hpre%prefix_length. unfold parent in Hpre.
  destruct p as [|c p] using rev_ind; [done|].
  rewrite removelast_last, length_app in Hpre. simpl in Hpre. lia.
Qed.

(** X8.  Whatever the merge does, and also when it raises or the operator
    declines: no regular file other than the staging file changes or
    appears, every directory stays, and the store and the clock stay. *)
Theorem merge_touches_only_staging_file source target tmp policy force s r s' :
  _sync_by_policy source target tmp policy force s = (r, s') →
  (∀ p, p ≠ tmp → file_at (disk s') p = file_at (disk s) p)
  ∧ (∀ p, is_dir (disk s) p = true → is_dir (disk s') p = true)
  ∧ sync_state s' = sync_state s
  ∧ clock s' = clock s.
Proof.
  intros Hrun. destruct (sync_by_policy_frame _ _ _ _ _ _ _ _ Hrun) as (Hev & Hss & Hc & _).
  split_and!; [| |done..].
  - intros p Hp. eapply evolves_file_at; [done|]. naive_solver.
  - intros p Hdir. unfold is_dir in *. destruct p as [|c p]; [done|]. simpl in *.
    destruct (Hev (c :: p)) as [->|[(Hn & _)|(Hn & _)]]; [done|..].
    + by rewrite Hn in Hdir.
    + by destruct (disk s !! (c :: p)) as [[|?]|].
Qed.

Lemma creation_run source target tmp policy force s d B :
  mkdir_parents (disk s) (parent target) = Ok d →
  read_text (disk s) source = Ok B →
  exists_ (disk s) target = false →
  with_tmp_suffix target = Ok tmp →
  is_dir (disk s) tmp = false →
  (force = true ∨ ∃ line, head (stdin s) = Some line ∧ confirms line = true) →
  ∃ s', _sync_by_policy source target tmp policy force s = (Ok true, s')
      ∧ disk s' = <[tmp := File (match policy with
                                 | PREPEND_SOURCE_STATEMENT => source_statement source
                                 | _ => B
                                 end)]> d.
Proof.
  intros Hmk HB Hex Htmp Hnd Hgo.
  pose proof (mkdir_parents_evolves _ _ _ Hmk) as Hev.
  pose proof (with_tmp_suffix_inv _ _ Htmp) as (dir & n & Ht & Htm).
  assert (target ≠ []) as Htne by (subst; by destruct dir).
  assert (tmp ≠ []) as Htmpne by (subst; by destruct dir).
  assert (d !! target = disk s !! target) as Hd_target.
  { eapply evolves_untouched; [done|tauto|]. by apply not_prefix_parent. }
  assert (d !! tmp = disk s !! tmp) as Hd_tmp.
  { eapply evolves_untouched; [done|tauto|].
    by apply with_tmp_suffix_not_prefix_parent. }
  assert (read_text d source = Ok B) as HB'.
  { unfold read_text, read_bytes in *. destruct source as [|c source]; [done|]. simpl in *.
    destruct (disk s !! (c :: source)) as [n0|] eqn:Hs; [|done].
    by rewrite (evolves_keeps _ _ _ _ _ _ Hev (λ x, x) Hs). }
  destruct (granted_run force (set_disk d s)) as (s1 & Hrun & Hd1 & _); [done|].
  set (text := match policy with
               | PREPEND_SOURCE_STATEMENT => source_statement source
               | _ => B end).
  exists (set_disk (<[tmp := File text]> d) s1). split; [|done].
  unfold _sync_by_policy.
  erewrite bind_ok; [|unfold writing; by rewrite Hmk].
  erewrite bind_ok; [|unfold reading; simpl; by rewrite HB'].
  erewrite bind_ok; [|unfold reading; done].
  assert (exists_ (disk (set_disk d s)) target = false) as ->.
  { unfold exists_ in *. rewrite lookup_node_ne in * by done. simpl. by rewrite Hd_target. }
  erewrite bind_ok; [|exact Hrun]. simpl.
  erewrite bind_ok; [done|].
  unfold writing. rewrite Hd1. simpl. fold text. rewrite write_text_ok; [done| |].
  - rewrite (with_tmp_suffix_parent _ _ Htmp). by eapply mkdir_parents_is_dir.
  - apply is_dir_false_lookup. split; [done|]. rewrite Hd_tmp.
    by apply is_dir_false_lookup in Hnd as [_ ?].
Qed.

(** X9.  Creating a target.  When the target does not exist and confirmation is
    granted, the merge makes the directories of the target, returns [True]
    and stages the text of the source, or under [PREPEND_SOURCE_STATEMENT]
    the two header lines alone. *)
Theorem creation_stages_by_policy source target tmp policy force s d B :
  mkdir_parents (disk s) (parent target) = Ok d →
  read_text (disk s) source = Ok B →
  exists_ (disk s) target = false →
  with_tmp_suffix target = Ok tmp →
  is_dir (disk s) tmp = false →
  (force = true ∨ ∃ line, head (stdin s) = Some line ∧ confirms line = true) →
  ∃ s', _sync_by_policy source target tmp policy force s = (Ok true, s')
      ∧ disk s' = <[tmp := File (match policy with
                                 | PREPEND_SOURCE_STATEMENT => source_statement source
                                 | _ => B
                                 end)]> d.
Proof. apply creation_run. Qed.

Lemma read_text_exists (fs : FS) (p : Path) (t : string) :
  read_text fs p = Ok t → exists_ fs p = true.
Proof. unfold read_text, read_bytes, exists_. by destruct (lookup_node fs p). Qed.

(** X10.  Overwriting.  For an existing target under [OVERWRITE], with
    confirmation granted, the merge returns [True] and its one effect on
    the disk is that the staging file holds the text of the source. *)
Theorem overwrite_stages_source_text source target tmp force s B :
  exists_ (disk s) target = true →
  read_text (disk s) source = Ok B →
  Forall (λ q, is_dir (disk s) q = true) (parents target) →
  with_tmp_suffix target = Ok tmp →
  is_dir (disk s) tmp = false →
  (force = true ∨ ∃ line, head (stdin s) = Some line ∧ confirms line = true) →
  ∃ s', _sync_by_policy source target tmp OVERWRITE force s = (Ok true, s')
      ∧ disk s' = <[tmp := File B]> (disk s).
Proof.
  intros Hex HB Hanc Htmp Hnd Hgo.
  destruct (granted_run force s Hgo) as (s1 & Hrun & Hd1 & _).
  exists (set_disk (<[tmp := File B]> (disk s)) s1). split; [|done].
  unfold _sync_by_policy.
  rewrite (bind_ok _ _ _ _ _ (mkdir_step_noop _ _ Hanc)).
  erewrite bind_ok; [|unfold reading; by rewrite HB].
  erewrite bind_ok; [|unfold reading; done].
  rewrite Hex.
  erewrite bind_ok; [|exact Hrun]. simpl.
  erewrite bind_ok; [done|].
  unfold writing. rewrite Hd1, write_text_ok; [done| |done].
  by eapply is_dir_parents_tmp.
Qed.

(** X11.  Prepending.  For an existing target that reads as [A] and does not
    have the directive on its second line, with confirmation granted, the
    merge returns [True] and stages the two header lines, an empty line,
    and then all of [A]. *)
Theorem prepend_stages_header_and_text source target tmp force s A B :
  read_text (disk s) target = Ok A →
  split_lines A !! 1%nat ≠ Some (expected_statement source) →
  read_text (disk s) source = Ok B →
  Forall (λ q, is_dir (disk s) q = true) (parents target) →
  with_tmp_suffix target = Ok tmp →
  is_dir (disk s) tmp = false →
  (force = true ∨ ∃ line, head (stdin s) = Some line ∧ confirms line = true) →
  ∃ s', _sync_by_policy source target tmp PREPEND_SOURCE_STATEMENT force s = (Ok true, s')
      ∧ disk s' = <[tmp := File (source_statement source +:+ nl +:+ nl +:+ A)]> (disk s).
Proof.
  intros HA Hline HB Hanc Htmp Hnd Hgo.
  destruct (granted_run force s Hgo) as (s1 & Hrun & Hd1 & _).
  exists (set_disk (<[tmp := File (source_statement source +:+ nl +:+ nl +:+ A)]> (disk s)) s1).
  split; [|done].
  unfold _sync_by_policy.
  rewrite (bind_ok _ _ _ _ _ (mkdir_step_noop _ _ Hanc)).
  erewrite bind_ok; [|unfold reading; by rewrite HB].
  erewrite bind_ok; [|unfold reading; done].
  rewrite (read_text_exists _ _ _ HA).
  erewrite bind_ok; [|exact Hrun]. simpl.
  erewrite bind_ok; [done|].
  erewrite bind_ok; [|unfold reading, readlines; by rewrite Hd1, HA].
  rewrite (bool_decide_false _ Hline), orb_true_r, join_split_lines.
  unfold writing. rewrite Hd1, write_text_ok; [done| |done].
  by eapply is_dir_parents_tmp.
Qed.


(** ** The batch *)

Section Run.
Context `{Runtime}.
Variable self : ConfigSyncer.

(** What [sync] does once staging and promotion went through. *)
Lemma sync_after_promotion source_files force s targets tmps synced s1 s2 :
  map_result (target_of self) source_files = Ok targets →
  map_result with_tmp_suffix targets = Ok tmps →
  stage_all self (zip (zip source_files targets) tmps) force (none_synced source_files) s
    = (Ok synced, s1) →
  promote_all (zip (zip source_files targets) tmps) s1 = (Ok tt, s2) →
  sync self source_files force s
  = try_finally
      (try_except
         (updated ← pure_result (updated_sync_states (sync_state s2) synced source_files);
          on_disk ← _load_sync_state self;
          modify (set_sync_state (updated ∪ on_disk));;
          _save_sync_state self;;
          ret 0%Z)
         (λ _, ret 1%Z))
      (cleanup tmps) s2.
Proof.
  intros Ht Htmp Hstage Hprom. unfold sync, pure_result, bind at 1. rewrite Ht.
  unfold bind at 1. rewrite Htmp. unfold try_finally, try_except, sync_body.
  rewrite (bind_ok _ _ _ _ _ Hstage), (bind_ok _ _ _ _ _ Hprom).
  unfold gets, bind at 1. done.
Qed.

Lemma stage_all_reads cands force synced s synced' s1 :
  stage_all self cands force synced s = (Ok synced', s1) →
  if force then stdin s1 = stdin s
  else ∃ lines, stdin s = lines ++ stdin s1 ∧ length lines = length cands.
Proof.
  revert synced s. induction cands as [|[[source target] tmp] cands IH]; intros synced s; simpl.
  - intros [= <- <-]. destruct force; [done|]. by exists [].
  - intros [(policy & ? & [= _ <-] & Hk)|(? & _ & ?)]%bind_inv; [|done].
    apply bind_inv in Hk as [(b & s0 & Hstep & Hk)|(? & _ & ?)]; [|done].
    apply sync_by_policy_returns in Hstep
      as (d & _ & [(-> & _ & Hin)|(-> & line & Hin & _)] & _);
      specialize (IH _ _ Hk); simpl in IH.
    + congruence.
    + destruct IH as (lines & Hl & Hlen). exists (line :: lines).
      split; [|simpl; lia]. rewrite Hin, Hl. done.
Qed.

(** X13.  A batch that succeeds has read one line of the operator for each
    candidate, whether or not the candidate's target existed, and no line
    at all under [force]. *)
Theorem sync_reads_one_answer_per_candidate source_files force s s' :
  sync self source_files force s = (Ok 0%Z, s') →
  if force then stdin s' = stdin s
  else (length source_files ≤ length (stdin s))%nat
       ∧ stdin s' = drop (length source_files) (stdin s).
Proof.
  intros Hsync.
  apply sync_success_inv in Hsync
    as (targets & tmps & synced & s1 & s2 & updated & on_disk & d3
        & Ht & Htmp & Hstage & Hprom & _ & _ & _ & Hclean).
  pose proof (map_result_length _ _ _ Ht) as Hlt.
  pose proof (map_result_length _ _ _ Htmp) as Hltmp.
  destruct (promote_all_same_session _ _ _ _ Hprom) as (_ & Hin2 & _).
  destruct (cleanup_removes _ _ _ _ Hclean) as [(_ & Hin3 & _) _]. simpl in Hin3.
  apply stage_all_reads in Hstage. destruct force.
  - congruence.
  - destruct Hstage as (lines & Hl & Hlen).
    rewrite !length_zip in Hlen.
    assert (length lines = length source_files) as Hlen' by lia.
    rewrite Hl, length_app. split; [lia|].
    rewrite <- Hlen', drop_app_length. congruence.
Qed.

(** X14.  [sync] is not atomic past the promotion: when the entries to persist
    cannot be collected or the state file cannot be reloaded, [sync]
    returns 1 with every promoted target in place; only the staging paths
    are cleared, and the store in memory is the one from before the run. *)
Theorem failure_after_promotion_keeps_targets source_files force s targets tmps synced
    s1 s2 e :
  map_result (target_of self) source_files = Ok targets →
  map_result with_tmp_suffix targets = Ok tmps →
  stage_all self (zip (zip source_files targets) tmps) force (none_synced source_files) s
    = (Ok synced, s1) →
  promote_all (zip (zip source_files targets) tmps) s1 = (Ok tt, s2) →
  (updated_sync_states (sync_state s2) synced source_files = Raise e
   ∨ (is_ok (updated_sync_states (sync_state s2) synced source_files) = true
      ∧ _load_sync_state self s2 = (Raise e, s2))) →
  (∀ tmp, tmp ∈ tmps → is_dir (disk s2) tmp = false) →
  ∃ s', sync self source_files force s = (Ok 1%Z, s')
      ∧ (∀ p, p ∉ tmps → disk s' !! p = disk s2 !! p)
      ∧ (∀ tmp, tmp ∈ tmps → disk s' !! tmp = None)
      ∧ sync_state s' = sync_state s.
Proof.
  intros Ht Htmp Hstage Hprom Hfail Hnd.
  rewrite (sync_after_promotion _ _ _ _ _ _ _ _ Ht Htmp Hstage Hprom).
  destruct (cleanup_ok tmps s2 Hnd) as (s' & Hclean & Hlk & Hss & _).
  exists s'. split_and!.
  - unfold try_finally, try_except, pure_result, bind at 1.
    destruct Hfail as [->|[Hok Hload]].
    + unfold ret. by rewrite Hclean.
    + destruct (updated_sync_states _ _ _) as [updated|]; [|done].
      rewrite (bind_raise _ _ _ _ _ Hload). unfold ret. by rewrite Hclean.
  - intros p Hp. by rewrite Hlk, decide_False.
  - intros p Hp. by rewrite Hlk, decide_True.
  - rewrite Hss.
    destruct (stage_all_frame _ _ _ _ _ _ _ Hstage) as (_ & E1 & _).
    destruct (promote_all_same_session _ _ _ _ Hprom) as (E2 & _). congruence.
Qed.

(** [_load_sync_state] looks at nothing but the state file. *)
Lemma load_sync_state_same s1 s2 r :
  disk s2 !! state_file_path self = disk s1 !! state_file_path self →
  _load_sync_state self s1 = (r, s1) →
  _load_sync_state self s2 = (r, s2).
Proof.
  intros Heq. unfold _load_sync_state.
  cbv [bind reading ret raise exists_ read_text read_bytes lookup_node].
  assert (∀ (a : result SyncState), (a, s1) = (r, s1) → (a, s2) = (r, s2)) as Hfst.
  { intros a Hr. apply (f_equal fst) in Hr. simpl in Hr. by rewrite Hr. }
  destruct (state_file_path self) as [|c p]; simpl.
  - apply Hfst.
  - rewrite Heq. destruct (disk s1 !! (c :: p)) as [[|x]|] eqn:E; simpl;
      rewrite ?Heq, ?E; simpl.
    + apply Hfst.
    + destruct (json_load (universal_newlines x)); apply Hfst.
    + apply Hfst.
Qed.

Lemma sync_new_file f rel tmp policy force s dirs B e on_disk :
  let t := joinpath (target_dir_path self) rel in
  let text := match policy with
              | PREPEND_SOURCE_STATEMENT => source_statement f
              | _ => B
              end in
  relative_to f (configs_dir_path self) = Ok rel →
  policy_of self f = Ok policy →
  with_tmp_suffix t = Ok tmp →
  read_text (disk s) f = Ok B →
  exists_ (disk s) t = false →
  exists_ (disk s) tmp = false →
  mkdir_parents (disk s) (parent t) = Ok dirs →
  (force = true ∨ ∃ line, head (stdin s) = Some line ∧ confirms line = true) →
  sync_state s !! f = Some e →
  _load_sync_state self s = (Ok on_disk, s) →
  state_file_path self ≠ t →
  state_file_path self ≠ tmp →
  ¬ state_file_path self `prefix_of` parent t →
  is_dir (disk s) (parent (state_file_path self)) = true →
  is_dir (disk s) (state_file_path self) = false →
  ∃ s', sync self [f] force s = (Ok 0%Z, s')
      ∧ disk s' = <[state_file_path self := File (json_dump (<[f := e]> on_disk))]>
                    (<[t := File text]> dirs)
      ∧ sync_state s' = <[f := e]> on_disk.
Proof.
  intros t text Hrel Hpol Htmp HB Hext Hextmp Hmk Hgo He Hload Hsft Hsftmp Hsfp Hsfdir Hsfnd.
  pose proof (mkdir_parents_evolves _ _ _ Hmk) as Hev.
  pose proof (with_tmp_suffix_inv _ _ Htmp) as (dir & n & Ht & Htm).
  assert (t ≠ []) as Htne by (rewrite Ht; by destruct dir).
  assert (tmp ≠ []) as Htmpne by (rewrite Htm; by destruct dir).
  assert (tmp ≠ t) as Htt by (by eapply with_tmp_suffix_ne).
  assert (disk s !! t = None) as Hst.
  { unfold exists_ in Hext. rewrite lookup_node_ne in Hext by done.
    by destruct (disk s !! t). }
  assert (disk s !! tmp = None) as Hstmp.
  { unfold exists_ in Hextmp. rewrite lookup_node_ne in Hextmp by done.
    by destruct (disk s !! tmp). }
  assert (dirs !! t = None) as Hdt.
  { rewrite <- Hst. eapply evolves_untouched; [done|tauto|]. by apply not_prefix_parent. }
  assert (dirs !! tmp = None) as Hdtmp.
  { rewrite <- Hstmp. eapply evolves_untouched; [done|tauto|].
    by apply with_tmp_suffix_not_prefix_parent. }
  assert (state_file_path self ≠ []) as Hsfne.
  { intros Heq. rewrite Heq in Hsfnd. done. }
  assert (dirs !! state_file_path self = disk s !! state_file_path self) as Hdsf.
  { eapply evolves_untouched; [done|tauto|done]. }
  (* staging *)
  destruct (creation_run f t tmp policy force s dirs B) as (s1 & Hmerge & Hd1); try done.
  { unfold is_dir. rewrite lookup_node_ne, Hstmp; done. }
  fold text in Hd1.
  destruct (sync_by_policy_frame _ _ _ _ _ _ _ _ Hmerge) as (_ & Hss1 & _).
  assert (stage_all self [(f, t, tmp)] force (none_synced [f]) s
          = (Ok (<[f := true]> (none_synced [f])), s1)) as Hstage.
  { simpl. erewrite bind_ok; [|unfold pure_result; by rewrite Hpol].
    erewrite bind_ok; [|exact Hmerge]. done. }
  (* promotion *)
  set (s2 := set_disk (<[t := File text]> dirs) s1).
  assert (promote_all [(f, t, tmp)] s1 = (Ok tt, s2)) as Hprom.
  { unfold promote_all. simpl.
    assert (promote (f, t, tmp) s1 = (Ok tt, s2)) as Hp1; [|by rewrite (bind_ok _ _ _ _ _ Hp1)].
    unfold promote.
    erewrite bind_ok; [|unfold reading; done].
    assert (exists_ (disk s1) tmp = true) as ->.
    { unfold exists_. by rewrite lookup_node_ne, Hd1, lookup_insert_eq. }
    unfold writing, rename.
    rewrite (lookup_node_ne _ tmp), Hd1, lookup_insert_eq by done.
    assert (lookup_node (<[tmp := File text]> dirs) (parent t) = Some Dir) as ->.
    { assert (is_dir dirs (parent t) = true) as Hp by (by eapply mkdir_parents_is_dir).
      unfold is_dir in Hp. destruct (parent t) as [|c p] eqn:Hpt; [done|]. simpl in *.
      rewrite lookup_insert_ne; [by destruct (dirs !! (c :: p)) as [[|?]|]|].
      intros ->. by rewrite Hdtmp in Hp. }
    rewrite (lookup_node_ne _ t), lookup_insert_ne, Hdt by done.
    rewrite delete_insert_eq, delete_id by done. done. }
  (* the store *)
  rewrite (sync_after_promotion [f] force s [t] [tmp]
             (<[f := true]> (none_synced [f])) s1 s2); try done.
  2:{ simpl. unfold target_of. by rewrite Hrel. }
  2:{ simpl. by rewrite Htmp. }
  assert (updated_sync_states (sync_state s2) (<[f := true]> (none_synced [f])) [f]
          = Ok (<[f := e]> ∅)) as Hupd.
  { simpl. rewrite lookup_insert_eq. simpl. by rewrite Hss1, He. }
  assert (_load_sync_state self s2 = (Ok on_disk, s2)) as Hload2.
  { eapply load_sync_state_same; [|done]. simpl.
    by rewrite lookup_insert_ne. }
  set (m := <[f := e]> on_disk).
  assert (<[f := e]> ∅ ∪ on_disk = m) as Hm.
  { unfold m. by rewrite <- insert_union_l, (left_id_L ∅ (∪)). }
  set (d3 := <[state_file_path self := File (json_dump m)]> (<[t := File text]> dirs)).
  exists (mkState d3 (stdin s2) (clock s2) m). split; [|done].
  unfold try_finally, try_except.
  erewrite bind_ok; [|unfold pure_result; by rewrite Hupd].
  erewrite bind_ok; [|exact Hload2].
  erewrite bind_ok; [|unfold modify; done].
  rewrite Hm.
  assert (_save_sync_state self (set_sync_state m s2)
          = (Ok tt, mkState d3 (stdin s2) (clock s2) m)) as Hsave.
  { unfold _save_sync_state. erewrite bind_ok; [|unfold gets; done].
    unfold writing. simpl. rewrite write_text_ok; [done| |].
    - unfold is_dir in *. destruct (parent (state_file_path self)) as [|c p] eqn:Hp; [done|].
      simpl in *. destruct (disk s !! (c :: p)) as [[|?]|] eqn:Hl; [|done..].
      rewrite lookup_insert_ne.
      + by rewrite (evolves_keeps _ _ _ _ _ _ Hev (λ x, x) Hl).
      + intros Heq. by rewrite Heq, Hl in Hst.
    - apply is_dir_false_lookup. split; [done|].
      rewrite lookup_insert_ne, Hdsf by done.
      by apply is_dir_false_lookup in Hsfnd as [_ ?]. }
  erewrite bind_ok; [|exact Hsave].
  assert (cleanup [tmp] (mkState d3 (stdin s2) (clock s2) m)
          = (Ok tt, mkState d3 (stdin s2) (clock s2) m)) as Hclean.
  { unfold cleanup. simpl.
    assert (remove_staging_file tmp (mkState d3 (stdin s2) (clock s2) m)
            = (Ok tt, mkState d3 (stdin s2) (clock s2) m)) as Hrm;
      [|by rewrite (bind_ok _ _ _ _ _ Hrm)].
    unfold remove_staging_file.
    erewrite bind_ok; [|unfold reading; done]. simpl.
    assert (exists_ d3 tmp = false) as ->; [|done].
    unfold exists_, d3. rewrite lookup_node_ne by done.
    by rewrite !lookup_insert_ne, Hdtmp. }
  unfold ret. by rewrite Hclean.
Qed.

(** X15.  A new file, end to end.  One candidate whose target and staging path
    do not exist, with its entry in the store, is synced with confirmation
    granted: [sync] returns 0; the disk afterwards is the disk before with
    the target's directories made, the target holding the text of the
    source (the header under [PREPEND_SOURCE_STATEMENT]) and the state file
    holding the store; the store is the one reloaded from disk with the
    candidate's entry put in; no staging file is left. *)
Theorem new_file_is_synced f rel tmp policy force s dirs B e on_disk :
  let t := joinpath (target_dir_path self) rel in
  let text := match policy with
              | PREPEND_SOURCE_STATEMENT => source_statement f
              | _ => B
              end in
  relative_to f (configs_dir_path self) = Ok rel →
  policy_of self f = Ok policy →
  with_tmp_suffix t = Ok tmp →
  read_text (disk s) f = Ok B →
  exists_ (disk s) t = false →
  exists_ (disk s) tmp = false →
  mkdir_parents (disk s) (parent t) = Ok dirs →
  (force = true ∨ ∃ line, head (stdin s) = Some line ∧ confirms line = true) →
  sync_state s !! f = Some e →
  _load_sync_state self s = (Ok on_disk, s) →
  state_file_path self ≠ t →
  state_file_path self ≠ tmp →
  ¬ state_file_path self `prefix_of` parent t →
  is_dir (disk s) (parent (state_file_path self)) = true →
  is_dir (disk s) (state_file_path self) = false →
  ∃ s', sync self [f] force s = (Ok 0%Z, s')
      ∧ disk s' = <[state_file_path self := File (json_dump (<[f := e]> on_disk))]>
                    (<[t := File text]> dirs)
      ∧ sync_state s' = <[f := e]> on_disk.
Proof. apply sync_new_file. Qed.

Lemma up_to_date f rel s e b policy :
  relative_to f (configs_dir_path self) = Ok rel →
  excluded_by_pattern rel (exclude_patterns self) = Ok false →
  sync_state s !! f = Some e →
  read_bytes (disk s) f = Ok b →
  e !! "hash" = Some (md5_hexdigest b) →
  policy_of self f = Ok policy →
  (if decide (policy = PREPEND_SOURCE_STATEMENT)
   then ∃ lines, readlines (disk s) (joinpath (target_dir_path self) rel) = Ok lines
               ∧ lines !! 1%nat = Some (expected_statement f)
   else ∃ tb, read_bytes (disk s) (joinpath (target_dir_path self) rel) = Ok tb
            ∧ md5_hexdigest tb = md5_hexdigest b) →
  _validate_exclude self f s = (Ok true, set_clock (S (clock s)) s).
Proof.
  intros Hrel Hexcl He Hb Hh Hpol Hcond. destruct s as [d i c m]. simpl in *.
  assert (exists_ d (joinpath (target_dir_path self) rel) = true) as Hex.
  { case_decide.
    - destruct Hcond as (lines & Hl & _). unfold readlines in Hl.
      destruct (read_text _ _) as [t|] eqn:Ht; [|done]. by eapply read_text_exists.
    - destruct Hcond as (tb & Htb & _). unfold read_bytes in Htb. unfold exists_.
      by destruct (lookup_node d (joinpath (target_dir_path self) rel)) as [[|?]|]. }
  unfold _validate_exclude.
  cbv [bind pure_result now_isoformat gets _compute_file_hash reading ret
       set_entry_field modify _validate_expected_condition raise].
  rewrite Hrel, Hexcl. simpl. rewrite Hb. simpl. rewrite He. simpl.
  rewrite Hh, !bool_decide_true by eauto. simpl.
  rewrite Hex, Hpol. unfold set_clock. simpl.
  case_decide as Hp.
  - subst policy. simpl. destruct Hcond as (lines & Hl1 & Hl). rewrite Hl1. simpl.
    rewrite Hl. by rewrite bool_decide_true.
  - destruct Hcond as (tb & Htb & Hmd).
    destruct policy; [| |done]; simpl; rewrite Hb; simpl; rewrite Htb; simpl;
      by rewrite bool_decide_true.
Qed.

(** X16.  A file recorded with the digest of what it holds, whose target meets
    the condition of its policy (the directive on the second line, or the
    digest of the source), is skipped, and only the clock moves. *)
Theorem current_file_is_skipped f rel s e b policy :
  relative_to f (configs_dir_path self) = Ok rel →
  excluded_by_pattern rel (exclude_patterns self) = Ok false →
  sync_state s !! f = Some e →
  read_bytes (disk s) f = Ok b →
  e !! "hash" = Some (md5_hexdigest b) →
  policy_of self f = Ok policy →
  (if decide (policy = PREPEND_SOURCE_STATEMENT)
   then ∃ lines, readlines (disk s) (joinpath (target_dir_path self) rel) = Ok lines
               ∧ lines !! 1%nat = Some (expected_statement f)
   else ∃ tb, read_bytes (disk s) (joinpath (target_dir_path self) rel) = Ok tb
            ∧ md5_hexdigest tb = md5_hexdigest b) →
  _validate_exclude self f s = (Ok true, set_clock (S (clock s)) s).
Proof. apply up_to_date. Qed.


End Run.

(** ** The store and the script *)

Section Store.
Context `{Runtime}.
Variable self : ConfigSyncer.

(** X18.  Saving and loading the store.  When [json.load] reads back what
    [json.dump] wrote for the store in memory, and the state file can be
    written, saving and then loading gives that store, and the one change
    is that the state file holds its dump. *)
Theorem save_then_load_round_trip s :
  json_load (universal_newlines (json_dump (sync_state s))) = Some (sync_state s) →
  is_dir (disk s) (parent (state_file_path self)) = true →
  is_dir (disk s) (state_file_path self) = false →
  bind (_save_sync_state self) (λ _, _load_sync_state self) s
  = (Ok (sync_state s),
     set_disk (<[state_file_path self := File (json_dump (sync_state s))]> (disk s)) s).
Proof.
  intros Hjson Hdir Hnd.
  assert (state_file_path self ≠ []) as Hne by (intros Heq; by rewrite Heq in Hnd).
  erewrite bind_ok.
  2:{ unfold _save_sync_state. erewrite bind_ok; [|unfold gets; done].
      unfold writing. by rewrite write_text_ok. }
  unfold _load_sync_state.
  erewrite bind_ok; [|unfold reading; done]. simpl.
  assert (exists_ (<[state_file_path self := File (json_dump (sync_state s))]> (disk s))
                  (state_file_path self) = true) as ->.
  { unfold exists_. by rewrite lookup_node_ne, lookup_insert_eq. }
  simpl. erewrite bind_ok.
  2:{ unfold reading, read_text, read_bytes. simpl.
      by rewrite lookup_node_ne, lookup_insert_eq. }
  by rewrite Hjson.
Qed.

Lemma clear_inv s r s' :
  clear_sync_state self s = (r, s') →
  sync_state s' = ∅
  ∧ stdin s' = stdin s
  ∧ clock s' = clock s
  ∧ (∀ p, p ≠ state_file_path self → disk s' !! p = disk s !! p)
  ∧ (sync_state s = ∅ → r = Ok tt ∧ s' = s)
  ∧ (sync_state s ≠ ∅ → r = Ok tt →
     file_at (disk s') (state_file_path self) = Some (json_dump ∅)).
Proof.
  unfold clear_sync_state.
  intros [(m & ? & [= <- <-] & Hk)|(? & [=] & _)]%bind_inv.
  case_bool_decide as Hm.
  - injection Hk as <- <-. split_and!; try done.
  - apply bind_inv in Hk as [([] & ? & [= <-] & Hk)|(? & [=] & _)].
    unfold _save_sync_state in Hk.
    apply bind_inv in Hk as [(m' & ? & [= <- <-] & Hk)|(? & [=] & _)]. simpl in Hk.
    apply writing_inv in Hk as [(d & Hd & -> & ->)|(e & _ & -> & ->)]; simpl.
    + apply write_text_inv in Hd as (-> & _ & Hne & _).
      split_and!; try done.
      * intros p Hp. by rewrite lookup_insert_ne.
      * intros _ _. unfold file_at. by rewrite lookup_node_ne, lookup_insert_eq.
    + split_and!; try done.
Qed.

(** X19.  [clear_sync_state] leaves an empty store in memory.  It touches no
    path but the state file.  On a store that is empty already it does
    nothing, so it does not create the state file; otherwise, when it
    succeeds, the state file holds the dump of the empty store. *)
Theorem clear_sync_state_footprint s r s' :
  clear_sync_state self s = (r, s') →
  sync_state s' = ∅
  ∧ stdin s' = stdin s
  ∧ clock s' = clock s
  ∧ (∀ p, p ≠ state_file_path self → disk s' !! p = disk s !! p)
  ∧ (sync_state s = ∅ → r = Ok tt ∧ s' = s)
  ∧ (sync_state s ≠ ∅ → r = Ok tt →
     file_at (disk s') (state_file_path self) = Some (json_dump ∅)).
Proof. apply clear_inv. Qed.

End Store.

Section Script.
Context `{Runtime}.

Lemma and_then_inv {A} (m : M A) (k : A → State → Termination * State) s t s' :
  and_then m k s = (t, s') →
  (∃ a s1, m s = (Ok a, s1) ∧ k a s1 = (t, s'))
  ∨ (∃ e, m s = (Raise e, s') ∧ t = Uncaught e).
Proof.
  unfold and_then. destruct (m s) as [[a|e] s1]; [eauto|].
  intros [= <- <-]. eauto.
Qed.

(** X20.  The script does nothing unless it is started in the configs
    directory: otherwise it exits with 1 and the state is as before. *)
Theorem main_refuses_other_directories home cwd args s :
  is_dir (disk s) (home ++ ["configs"]) = false ∨ cwd ≠ home ++ ["configs"] →
  main home cwd args s = (SystemExit 1, s).
Proof.
  intros Hbad. unfold main, and_then, validation_check, reading, sys_exit.
  destruct (exists_ (disk s) (home ++ ["configs"])); simpl; [|done].
  destruct Hbad as [->|Hcwd]; simpl; [done|].
  destruct (is_dir (disk s) (home ++ ["configs"])); simpl; [|done].
  by rewrite bool_decide_false.
Qed.

(** X21.  With [--show_state] or [--clear_state] the script never syncs: however
    it ends, no path other than the state file has changed, and with
    [--show_state] the filesystem is as before. *)
Theorem inspection_leaves_files_alone home cwd args s t s' :
  show_state args = true ∨ clear_state args = true →
  main home cwd args s = (t, s') →
  (∀ p, p ≠ home ++ ["configs"] ++ [".sync_state.json"] → disk s' !! p = disk s !! p)
  ∧ (show_state args = true → disk s' = disk s).
Proof.
  intros Hmode Hrun. unfold main in Hrun.
  apply and_then_inv in Hrun as [(valid & s1 & Hv & Hrun)|(e & Hv & _)];
    apply reading_inv in Hv as [_ ->]; [|done].
  destruct (negb valid); [by injection Hrun as _ <-|].
  destruct (DEFAULT_POLICY args) as [policy|]; [|by injection Hrun as _ <-].
  apply and_then_inv in Hrun as [([] & s2 & Hinit & Hrun)|(e & Hinit & _)].
  2:{ unfold __init__ in Hinit.
      apply bind_inv in Hinit as [(m & s3 & Hl & Hm)|(e' & Hl & _)].
      - by injection Hm.
      - by apply load_sync_state_inv in Hl as ->. }
  assert (disk s2 = disk s) as Hd2.
  { unfold __init__ in Hinit.
    apply bind_inv in Hinit as [(m & s3 & Hl & Hm)|(e' & Hl & [=])].
    apply load_sync_state_inv in Hl as ->. by injection Hm as <-. }
  destruct (show_state args).
  - unfold and_then, show_sync_state, ret, sys_exit in Hrun. injection Hrun as _ <-.
    split; [|done]. intros p _. by rewrite Hd2.
  - destruct Hmode as [?|Hclear]; [done|]. rewrite Hclear in Hrun.
    split; [|done]. intros p Hp. rewrite <- Hd2.
    apply and_then_inv in Hrun as [([] & s3 & Hc & Hrun)|(e & Hc & _)].
    + injection Hrun as _ <-.
      apply clear_inv in Hc as (_ & _ & _ & Hframe & _). apply Hframe.
      simpl. by rewrite <- (assoc_L (++)).
    + apply clear_inv in Hc as (_ & _ & _ & Hframe & _). apply Hframe.
      simpl. by rewrite <- (assoc_L (++)).
Qed.

End Script.

(** ** Runs of the examples *)

Lemma run_fst {A B} (p : A * B) (a : A) : p.1 = a → p = (a, p.2).
Proof. intros <-. by destruct p. Qed.

Lemma load_sync_state_fst `{Runtime} (self : ConfigSyncer) s r :
  (_load_sync_state self s).1 = r → _load_sync_state self s = (r, s).
Proof.
  intros <-. destruct (_load_sync_state self s) as [r s'] eqn:Hrun.
  by apply load_sync_state_inv in Hrun as ->.
Qed.

Lemma ok_eq {A} `{EqDecision A} (r : result A) (a : A) :
  (if r is Ok x then bool_decide (x = a) else false) = true → r = Ok a.
Proof. destruct r; [|done]. by intros ->%bool_decide_eq_true. Qed.

(** Closes [r = Ok a] on concrete data by evaluation. *)
Ltac ok_by_evaluation := apply ok_eq; vm_compute; reflexivity.

Import Example.
#[local] Existing Instance runtime.

Lemma detection_footprint_witness :
  _validate_exclude syncer (configs ++ ["vimrc"]) target_gone
    = (Ok false, (_validate_exclude syncer (configs ++ ["vimrc"]) target_gone).2)
  ∧ disk (_validate_exclude syncer (configs ++ ["vimrc"]) target_gone).2 = disk target_gone
  ∧ stdin (_validate_exclude syncer (configs ++ ["vimrc"]) target_gone).2 = stdin target_gone.
Proof.
  assert (_validate_exclude syncer (configs ++ ["vimrc"]) target_gone
          = (Ok false, (_validate_exclude syncer (configs ++ ["vimrc"]) target_gone).2)) as Hrun.
  { apply run_fst. vm_compute. reflexivity. }
  split; [exact Hrun|].
  destruct (detection_footprint syncer _ _ _ _ Hrun) as (Hd & Hi & _).
  split; [exact Hd|exact Hi].
Defined.

Lemma flagged_file_is_recorded_witness :
  ∃ e b, sync_state (_validate_exclude syncer (configs ++ ["vimrc"]) target_gone).2
           !! (configs ++ ["vimrc"]) = Some e
       ∧ read_bytes (disk target_gone) (configs ++ ["vimrc"]) = Ok b
       ∧ e !! "hash" = Some (md5_hexdigest b).
Proof.
  destruct (flagged_file_is_recorded syncer (configs ++ ["vimrc"]) target_gone
              (_validate_exclude syncer (configs ++ ["vimrc"]) target_gone).2)
    as (e & b & He & Hb & Hh & _).
  - apply run_fst. vm_compute. reflexivity.
  - exists e, b. split; [exact He|]. split; [exact Hb|exact Hh].
Defined.

Lemma skipped_file_is_excluded_or_current_witness :
  _validate_exclude syncer bashrc bashrc_done
    = (Ok true, (_validate_exclude syncer bashrc bashrc_done).2)
  ∧ ((excluded_by_pattern [".bashrc"] EXCLUDE_PATTERNS = Ok true
      ∧ (_validate_exclude syncer bashrc bashrc_done).2 = bashrc_done)
     ∨ (excluded_by_pattern [".bashrc"] EXCLUDE_PATTERNS = Ok false
        ∧ (_validate_exclude syncer bashrc bashrc_done).2
          = set_clock (S (clock bashrc_done)) bashrc_done)).
Proof.
  assert (_validate_exclude syncer bashrc bashrc_done
          = (Ok true, (_validate_exclude syncer bashrc bashrc_done).2)) as Hrun.
  { apply run_fst. vm_compute. reflexivity. }
  split; [exact Hrun|].
  destruct (skipped_file_is_excluded_or_current syncer bashrc [".bashrc"] bashrc_done _
              eq_refl Hrun) as [[Hex Hs]|(Hex & Hs & _)].
  - left. split; [exact Hex|exact Hs].
  - right. split; [exact Hex|exact Hs].
Defined.

Lemma current_file_is_skipped_witness :
  _validate_exclude syncer bashrc bashrc_done
  = (Ok true, set_clock (S (clock bashrc_done)) bashrc_done).
Proof.
  apply (current_file_is_skipped syncer bashrc [".bashrc"] bashrc_done
           (entry_of "export A=1" "Source File is modified (hash mismatch) since last sync")
           "export A=1" PREPEND_SOURCE_STATEMENT).
  - reflexivity.
  - vm_compute. reflexivity.
  - by_evaluation.
  - vm_compute. reflexivity.
  - vm_compute. reflexivity.
  - vm_compute. reflexivity.
  - rewrite decide_True by reflexivity.
    exists (split_lines (universal_newlines prepended)).
    split; vm_compute; reflexivity.
Defined.

Lemma candidates_are_recorded_files_witness :
  get_syncing_files syncer two_new
    = (Ok [configs ++ ["b"]; configs ++ ["a"]], (get_syncing_files syncer two_new).2)
  ∧ disk (get_syncing_files syncer two_new).2 = disk two_new
  ∧ NoDup [configs ++ ["b"]; configs ++ ["a"]].
Proof.
  assert (get_syncing_files syncer two_new
          = (Ok [configs ++ ["b"]; configs ++ ["a"]], (get_syncing_files syncer two_new).2))
    as Hrun.
  { apply run_fst. vm_compute. reflexivity. }
  split; [exact Hrun|].
  destruct (candidates_are_recorded_files syncer two_new _ _ Hrun) as (Hd & _ & Hnd & _).
  split; [exact Hd|exact Hnd].
Defined.

Lemma debug_targets_are_not_sources_witness :
  _validate_exclude debug_syncer (configs ++ ["debug_home"; "nvim"; "init.lua"]) nested
  = (Ok true, nested).
Proof.
  apply (debug_targets_are_not_sources debug_syncer ["nvim"; "init.lua"] nested).
  - reflexivity.
  - reflexivity.
  - discriminate.
Defined.

Lemma merge_touches_only_staging_file_witness :
  _sync_by_policy (configs ++ ["a"]) (home ++ ["a"]) (home ++ ["a.tmp_sync"]) OVERWRITE true
      blocked
    = (Ok true,
       (_sync_by_policy (configs ++ ["a"]) (home ++ ["a"]) (home ++ ["a.tmp_sync"]) OVERWRITE
          true blocked).2)
  ∧ file_at (disk (_sync_by_policy (configs ++ ["a"]) (home ++ ["a"]) (home ++ ["a.tmp_sync"])
                     OVERWRITE true blocked).2) (home ++ ["a"])
    = file_at (disk blocked) (home ++ ["a"]).
Proof.
  assert (_sync_by_policy (configs ++ ["a"]) (home ++ ["a"]) (home ++ ["a.tmp_sync"])
            OVERWRITE true blocked
          = (Ok true,
             (_sync_by_policy (configs ++ ["a"]) (home ++ ["a"]) (home ++ ["a.tmp_sync"])
                OVERWRITE true blocked).2)) as Hrun.
  { apply run_fst. vm_compute. reflexivity. }
  split; [exact Hrun|].
  destruct (merge_touches_only_staging_file _ _ _ _ _ _ _ _ Hrun) as (Hfiles & _).
  apply Hfiles. by_evaluation.
Defined.

Lemma creation_stages_by_policy_witness :
  ∃ s', _sync_by_policy (configs ++ ["nvim"; "init.lua"]) (home ++ ["nvim"; "init.lua"])
          (home ++ ["nvim"; "init.lua.tmp_sync"]) OVERWRITE true nested = (Ok true, s')
      ∧ disk s' = <[home ++ ["nvim"; "init.lua.tmp_sync"] := File "set number"]>
                    (<[home ++ ["nvim"] := Dir]> (disk nested)).
Proof.
  apply (creation_stages_by_policy (configs ++ ["nvim"; "init.lua"])
           (home ++ ["nvim"; "init.lua"]) (home ++ ["nvim"; "init.lua.tmp_sync"])
           OVERWRITE true nested (<[home ++ ["nvim"] := Dir]> (disk nested)) "set number").
  - ok_by_evaluation.
  - vm_compute. reflexivity.
  - vm_compute. reflexivity.
  - vm_compute. reflexivity.
  - vm_compute. reflexivity.
  - by left.
Defined.

Lemma overwrite_stages_source_text_witness :
  ∃ s', _sync_by_policy (configs ++ ["a"]) (home ++ ["a"]) (home ++ ["a.tmp_sync"])
          OVERWRITE true blocked = (Ok true, s')
      ∧ disk s' = <[home ++ ["a.tmp_sync"] := File "new a"]> (disk blocked).
Proof.
  apply (overwrite_stages_source_text (configs ++ ["a"]) (home ++ ["a"])
           (home ++ ["a.tmp_sync"]) true blocked "new a").
  - vm_compute. reflexivity.
  - vm_compute. reflexivity.
  - repeat constructor.
  - vm_compute. reflexivity.
  - vm_compute. reflexivity.
  - by left.
Defined.

Lemma prepend_stages_header_and_text_witness :
  ∃ s', _sync_by_policy bashrc (home ++ [".bashrc"]) (home ++ [".bashrc.tmp_sync"])
          PREPEND_SOURCE_STATEMENT true bashrc_short = (Ok true, s')
      ∧ disk s' = <[home ++ [".bashrc.tmp_sync"] :=
                      File (source_statement bashrc +:+ nl +:+ nl +:+ "# mine")]>
                    (disk bashrc_short).
Proof.
  apply (prepend_stages_header_and_text bashrc (home ++ [".bashrc"])
           (home ++ [".bashrc.tmp_sync"]) true bashrc_short "# mine" "export A=1").
  - vm_compute. reflexivity.
  - by_evaluation.
  - vm_compute. reflexivity.
  - repeat constructor.
  - vm_compute. reflexivity.
  - vm_compute. reflexivity.
  - by left.
Defined.


Lemma sync_reads_one_answer_per_candidate_witness :
  sync syncer two_prompts_batch false two_prompts
    = (Ok 0%Z, (sync syncer two_prompts_batch false two_prompts).2)
  ∧ stdin two_prompts = ["n"; "yes"]
  ∧ stdin (sync syncer two_prompts_batch false two_prompts).2
    = drop (length two_prompts_batch) (stdin two_prompts).
Proof.
  assert (sync syncer two_prompts_batch false two_prompts
          = (Ok 0%Z, (sync syncer two_prompts_batch false two_prompts).2)) as Hrun.
  { apply run_fst. vm_compute. reflexivity. }
  split; [exact Hrun|]. split; [vm_compute; reflexivity|].
  destruct (sync_reads_one_answer_per_candidate syncer _ _ _ _ Hrun) as [_ Hin].
  exact Hin.
Defined.

Lemma failure_after_promotion_keeps_targets_witness :
  ∃ s', sync syncer [configs ++ ["a"]] true corrupt = (Ok 1%Z, s')
      ∧ file_at (disk s') (home ++ ["a"]) = Some "alpha"
      ∧ sync_state s' = sync_state corrupt.
Proof.
  destruct (failure_after_promotion_keeps_targets syncer [configs ++ ["a"]] true corrupt
              [home ++ ["a"]] [home ++ ["a.tmp_sync"]]
              {[ configs ++ ["a"] := true ]}
              (stage_all syncer [(configs ++ ["a"], home ++ ["a"], home ++ ["a.tmp_sync"])]
                 true (none_synced [configs ++ ["a"]]) corrupt).2
              (promote_all [(configs ++ ["a"], home ++ ["a"], home ++ ["a.tmp_sync"])]
                 (stage_all syncer
                    [(configs ++ ["a"], home ++ ["a"], home ++ ["a.tmp_sync"])]
                    true (none_synced [configs ++ ["a"]]) corrupt).2).2
              JSONDecodeError)
    as (s' & Hrun & Hkeep & _ & Hss).
  - vm_compute. reflexivity.
  - vm_compute. reflexivity.
  - apply run_fst. ok_by_evaluation.
  - apply run_fst. vm_compute. reflexivity.
  - right. split; [vm_compute; reflexivity|].
    apply load_sync_state_fst. vm_compute. reflexivity.
  - intros tmp Htmp. each_member Htmp. vm_compute. reflexivity.
  - exists s'. split; [exact Hrun|]. split; [|exact Hss].
    unfold file_at. rewrite lookup_node_ne by discriminate.
    rewrite Hkeep; [vm_compute; reflexivity|]. by_evaluation.
Defined.

Lemma new_file_is_synced_witness :
  ∃ s', sync syncer [configs ++ ["vimrc"]] true target_gone = (Ok 0%Z, s')
      ∧ disk s' = <[configs ++ [".sync_state.json"] :=
                      File (json_dump {[ configs ++ ["vimrc"] :=
                                           entry_of "set nu" "New file to be synced" ]})]>
                    (<[home ++ ["vimrc"] := File "set nu"]> (disk target_gone))
      ∧ sync_state s' = {[ configs ++ ["vimrc"] := entry_of "set nu" "New file to be synced" ]}.
Proof.
  apply (new_file_is_synced syncer (configs ++ ["vimrc"]) ["vimrc"] (home ++ ["vimrc.tmp_sync"])
           OVERWRITE true target_gone (disk target_gone) "set nu"
           (entry_of "set nu" "New file to be synced") ∅).
  - reflexivity.
  - vm_compute. reflexivity.
  - vm_compute. reflexivity.
  - vm_compute. reflexivity.
  - vm_compute. reflexivity.
  - vm_compute. reflexivity.
  - ok_by_evaluation.
  - by left.
  - by_evaluation.
  - apply load_sync_state_fst. ok_by_evaluation.
  - by_evaluation.
  - by_evaluation.
  - by_evaluation.
  - vm_compute. reflexivity.
  - vm_compute. reflexivity.
Defined.


Lemma save_then_load_round_trip_witness :
  bind (_save_sync_state syncer) (λ _, _load_sync_state syncer) target_gone
  = (Ok (sync_state target_gone),
     set_disk (<[configs ++ [".sync_state.json"] :=
                   File (json_dump (sync_state target_gone))]> (disk target_gone))
              target_gone).
Proof.
  apply (save_then_load_round_trip syncer target_gone).
  - by_evaluation.
  - vm_compute. reflexivity.
  - vm_compute. reflexivity.
Defined.

Lemma clear_sync_state_footprint_witness :
  clear_sync_state syncer target_gone
    = (Ok tt, (clear_sync_state syncer target_gone).2)
  ∧ sync_state (clear_sync_state syncer target_gone).2 = ∅
  ∧ file_at (disk (clear_sync_state syncer target_gone).2) (configs ++ [".sync_state.json"])
    = Some (json_dump ∅).
Proof.
  assert (clear_sync_state syncer target_gone
          = (Ok tt, (clear_sync_state syncer target_gone).2)) as Hrun.
  { apply run_fst. vm_compute. reflexivity. }
  split; [exact Hrun|].
  destruct (clear_sync_state_footprint syncer _ _ _ Hrun) as (Hss & _ & _ & _ & _ & Hfile).
  split; [exact Hss|]. apply Hfile; [by_evaluation|reflexivity].
Defined.

Lemma main_refuses_other_directories_witness :
  main home home defaults nested = (SystemExit 1, nested).
Proof.
  apply (main_refuses_other_directories home home defaults nested).
  right. by_evaluation.
Defined.

Lemma inspection_leaves_files_alone_witness :
  main home configs showing target_gone
    = (SystemExit 0, (main home configs showing target_gone).2)
  ∧ disk (main home configs showing target_gone).2 = disk target_gone.
Proof.
  assert (main home configs showing target_gone
          = (SystemExit 0, (main home configs showing target_gone).2)) as Hrun.
  { apply run_fst. vm_compute. reflexivity. }
  split; [exact Hrun|].
  destruct (inspection_leaves_files_alone home configs showing target_gone _ _
              (or_introl eq_refl) Hrun) as [_ Hshow].
  apply Hshow. reflexivity.
Defined.
